(** * reccmp stack comparison tool (src/reccmp/tools/stackcmp.py)

    A shallow embedding of the stack-offset reconciliation of [stackcmp.py]:
    the offset extractor ([STACK_ENTRY_REGEX],
    [extract_stack_offset_from_instruction]), the diff reconciler
    ([analyze_diff] and the collection loop of [compare_function_stacks]),
    the symbol enrichment, and the two report views
    ([print_by_original_stack], [print_by_recomp_stack]) with [print_footer].

    Conventions of the embedding.
    - A Python [str] is a [string]; its characters are the code points
      below 256 (disassembly text is ASCII).
    - A Python [int] is a [Z].
    - [set[StackPair]] is a [list StackPair]: the elements in the order in
      which the set is iterated.  Python fixes no iteration order (string
      hashes are seeded per process), so the views are defined on an
      arbitrary list and the whole-function entry point takes the
      iteration order as a parameter that permutes the collected set.
    - [dict[int, StackSymbol]] is a [gmap Z StackSymbol]; sets of integer
      offsets are [gset Z], and [sorted] is a merge sort of their elements.
    - [print] appends an [Output] event; the mutable [Warnings] object is
      threaded through the functions that write to it.
    - Calls to [logging] are not part of the model. *)

From Stdlib Require Import ZArith Ascii String HexadecimalString List Bool Lia.
From Stdlib Require HexadecimalPos HexadecimalN.
From stdpp Require Import base option list sorting gmap strings.

Local Open Scope string_scope.
Local Open Scope Z_scope.
Local Open Scope list_scope.

(** ** Text helpers *)

Definition char_between (lo hi c : ascii) : bool :=
  ((nat_of_ascii lo <=? nat_of_ascii c)%nat && (nat_of_ascii c <=? nat_of_ascii hi)%nat)%bool.

(** [x in s] for two Python strings. *)
Fixpoint contains (x s : string) : bool :=
  (String.prefix x s ||
   match s with
   | EmptyString => false
   | String _ s' => contains x s'
   end)%bool.

(** ** STACK_ENTRY_REGEX

    [(?P<register>e[sb]p)\s(?P<sign>[+-])\s(?P<offset>(0x)?[0-9a-f]+)(?![0-9a-f])]

    The matcher follows the pattern left to right; the two places where
    the regex engine can backtrack (the optional [0x] and the greedy
    [[0-9a-f]+]) are tried in the engine's order. *)

(** [\s] on the code points below 256 of a [str] pattern: the characters for
    which Python's [str.isspace] holds. *)
Definition is_space (c : ascii) : bool :=
  (char_between "009" "013" c || char_between "028" "032" c ||
   Ascii.eqb c "133" || Ascii.eqb c "160")%bool.

(** [[0-9a-f]] *)
Definition is_hex (c : ascii) : bool :=
  (char_between "0" "9" c || char_between "a" "f" c)%bool.

(** [[sb]] *)
Definition is_s_or_b (c : ascii) : bool :=
  (Ascii.eqb c "s" || Ascii.eqb c "b")%bool.

(** [[+-]] *)
Definition is_sign (c : ascii) : bool :=
  (Ascii.eqb c "+" || Ascii.eqb c "-")%bool.

(** [(?![0-9a-f])] at the start of [s]. *)
Definition not_followed_by_hex (s : string) : bool :=
  match s with
  | EmptyString => true
  | String c _ => negb (is_hex c)
  end.

(** [[0-9a-f]+(?![0-9a-f])] at the start of [s]: the text matched by the
    repetition.  Greedy: the longer repetition is tried first; when the
    rest of the pattern fails for it, the repetition stops at this
    character and the look-ahead is tried here. *)
Fixpoint hex_plus (s : string) : option string :=
  match s with
  | EmptyString => None
  | String c s' =>
      if is_hex c then
        match hex_plus s' with
        | Some d => Some (String c d)
        | None => if not_followed_by_hex s' then Some (String c EmptyString) else None
        end
      else None
  end.

(** [(?P<offset>(0x)?[0-9a-f]+)(?![0-9a-f])]: the text of group [offset].
    The optional prefix is tried first; when the rest fails with it, the
    match is retried without it. *)
Definition match_offset (s : string) : option string :=
  match
    match s with
    | String c1 (String c2 r) =>
        if (Ascii.eqb c1 "0" && Ascii.eqb c2 "x")%bool then
          match hex_plus r with
          | Some d => Some (String c1 (String c2 d))
          | None => None
          end
        else None
    | _ => None
    end
  with
  | Some m => Some m
  | None => hex_plus s
  end.

(** The named groups of a match. *)
Record Match := mkMatch {
  group_register : string;
  group_sign : string;
  group_offset : string
}.

(** The pattern anchored at the start of [s]. *)
Definition match_here (s : string) : option Match :=
  match s with
  | String c1 (String r (String c3 (String w1 (String sg (String w2 rest))))) =>
      if (Ascii.eqb c1 "e" && is_s_or_b r && Ascii.eqb c3 "p" &&
          is_space w1 && is_sign sg && is_space w2)%bool then
        match match_offset rest with
        | Some off =>
            Some (mkMatch (String c1 (String r (String c3 EmptyString)))
                          (String sg EmptyString) off)
        | None => None
        end
      else None
  | _ => None
  end.

(** [STACK_ENTRY_REGEX.search]: the match at the leftmost position that has
    one. *)
Fixpoint STACK_ENTRY_REGEX_search (s : string) : option Match :=
  match match_here s with
  | Some m => Some m
  | None =>
      match s with
      | EmptyString => None
      | String _ s' => STACK_ENTRY_REGEX_search s'
      end
  end.

(** ** int(text, 16)

    Python's [int] with base 16 on a text made of an optional sign, an
    optional [0x] prefix and hexadecimal digits ([None] stands for
    [ValueError]; underscores and surrounding blanks, which the groups of
    the regex never contain, are not accepted here). *)

Definition hex_digit_value (c : ascii) : option Z :=
  if char_between "0" "9" c then Some (Z.of_nat (nat_of_ascii c) - 48)
  else if char_between "a" "f" c then Some (Z.of_nat (nat_of_ascii c) - 87)
  else if char_between "A" "F" c then Some (Z.of_nat (nat_of_ascii c) - 55)
  else None.

Fixpoint hex_digits_value (acc : Z) (s : string) : option Z :=
  match s with
  | EmptyString => Some acc
  | String c s' =>
      match hex_digit_value c with
      | Some d => hex_digits_value (16 * acc + d) s'
      | None => None
      end
  end.

(** The optional [0x] or [0X] after the sign. *)
Definition strip_hex_prefix (s : string) : string :=
  match s with
  | String c1 (String c2 r) =>
      if (Ascii.eqb c1 "0" && (Ascii.eqb c2 "x" || Ascii.eqb c2 "X"))%bool then r else s
  | _ => s
  end.

Definition int_base16 (s : string) : option Z :=
  let '(negative, body) :=
    match s with
    | String c r =>
        if Ascii.eqb c "+" then (false, r)
        else if Ascii.eqb c "-" then (true, r)
        else (false, s)
    | EmptyString => (false, s)
    end in
  match strip_hex_prefix body with
  | EmptyString => None
  | digits =>
      match hex_digits_value 0 digits with
      | Some v => Some (if negative then - v else v)
      | None => None
      end
  end.

(** ** Data model *)

Record StackSymbol := mkStackSymbol {
  name : string;
  data_type : string
}.

Record StackRegisterOffset := mkStackRegisterOffset {
  register : string;
  offset : Z;
  symbol : option StackSymbol
}.

(** [f"{n:#04x}"] for a non-negative [n]: the prefix [0x] and at least two
    lower-case hexadecimal digits. *)
Definition format_hex_04 (n : Z) : string :=
  let digits := NilZero.string_of_uint (N.to_hex_uint (Z.to_N n)) in
  String.append "0x"
    (if (String.length digits <? 2)%nat then String.append "0" digits else digits).

(** [StackRegisterOffset.__str__] *)
Definition StackRegisterOffset_str (x : StackRegisterOffset) : string :=
  let first_part :=
    if 0 <? offset x
    then String.append (register x) (String.append " + " (format_hex_04 (offset x)))
    else String.append (register x) (String.append " - " (format_hex_04 (- offset x))) in
  let second_part :=
    match symbol x with
    | Some sym => String.append "  " (name sym)
    | None => ""
    end in
  String.append first_part second_part.

(** [StackRegisterOffset.__eq__]: register and offset, not the symbol. *)
Definition sro_eq (a b : StackRegisterOffset) : bool :=
  (String.eqb (register a) (register b) && Z.eqb (offset a) (offset b))%bool.

(** [StackRegisterOffset.__hash__]: [hash(self.register) + self.offset].
    [str_hash] is Python's hash of a string, which is seeded per process. *)
Section Hash.

Variable str_hash : string -> Z.

Definition StackRegisterOffset_hash (a : StackRegisterOffset) : Z :=
  str_hash (register a) + offset a.

End Hash.

(** [StackRegisterOffset.copy] *)
Definition copy (a : StackRegisterOffset) : StackRegisterOffset :=
  mkStackRegisterOffset (register a) (offset a) (symbol a).

Record StackPair := mkStackPair {
  orig : StackRegisterOffset;
  recomp : StackRegisterOffset
}.

(** Equality of two [StackPair] tuples: component-wise [__eq__]. *)
Definition pair_eq (p q : StackPair) : bool :=
  (sro_eq (orig p) (orig q) && sro_eq (recomp p) (recomp q))%bool.

Record Warnings := mkWarnings {
  structural_mismatches_present : bool;
  error_map_not_bijective : bool
}.

(** ** extract_stack_offset_from_instruction *)

Definition extract_stack_offset_from_instruction (instruction : string)
  : option StackRegisterOffset :=
  match STACK_ENTRY_REGEX_search instruction with
  | None => None
  | Some m =>
      match int_base16 (String.append (group_sign m) (group_offset m)) with
      | Some off => Some (mkStackRegisterOffset (group_register m) off None)
      | None => None
      end
  end.

(** [any(x in instruction for x in ["ebp", "esp"])] *)
Definition mentions_stack_register (instruction : string) : bool :=
  (contains "ebp" instruction || contains "esp" instruction)%bool.

(** ** Sets of stack pairs

    [set.add] keeps the element already present when an equal one is
    added; [set.union] adds the elements of the second set to a copy of the
    first. *)

Abbreviation StackPairs := (list StackPair).

Definition set_contains (p : StackPair) (s : StackPairs) : bool :=
  existsb (pair_eq p) s.

Definition set_add (p : StackPair) (s : StackPairs) : StackPairs :=
  if set_contains p s then s else s ++ [p].

Definition set_union (s t : StackPairs) : StackPairs :=
  fold_left (fun acc p => set_add p acc) t s.

(** ** The diff structure

    [MatchingOrMismatchingBlock] is a dictionary with either the key
    [both], a list of lines (orig addr, instruction, recomp addr), or the
    keys [orig] and [recomp], two lists of lines (addr, instruction).
    [CombinedDiffOutput] is a list of hunks (header, list of blocks). *)

Inductive MatchingOrMismatchingBlock :=
| MatchingBlock (both : list (string * string * string))
| MismatchingBlock (orig_lines recomp_lines : list (string * string)).

Definition CombinedDiffOutput := list (string * list MatchingOrMismatchingBlock).

(** ** analyze_diff *)

(** The loop over [diff["both"]]. *)
Fixpoint analyze_both (lines : list (string * string * string))
    (stack_pairs : StackPairs) : StackPairs :=
  match lines with
  | [] => stack_pairs
  | line :: rest =>
      let instruction := snd (fst line) in
      match extract_stack_offset_from_instruction instruction with
      | Some m => analyze_both rest (set_add (mkStackPair m (copy m)) stack_pairs)
      | None => analyze_both rest stack_pairs
      end
  end.

(** The loop over [zip(orig, recomp)]; [None] is the early [return set()]
    taken when the original line has a stack reference and the recomp
    line has none. *)
Fixpoint analyze_zip (lines : list ((string * string) * (string * string)))
    (stack_pairs : StackPairs) : option StackPairs :=
  match lines with
  | [] => Some stack_pairs
  | (orig_line, recomp_line) :: rest =>
      match extract_stack_offset_from_instruction (snd orig_line) with
      | Some orig_match =>
          match extract_stack_offset_from_instruction (snd recomp_line) with
          | None => None
          | Some recomp_match =>
              analyze_zip rest (set_add (mkStackPair orig_match recomp_match) stack_pairs)
          end
      | None => analyze_zip rest stack_pairs
      end
  end.

Definition set_structural_mismatches_present (w : Warnings) : Warnings :=
  mkWarnings true (error_map_not_bijective w).

Definition set_error_map_not_bijective (w : Warnings) : Warnings :=
  mkWarnings (structural_mismatches_present w) true.

Definition analyze_diff (diff : MatchingOrMismatchingBlock) (warnings : Warnings)
  : StackPairs * Warnings :=
  match diff with
  | MatchingBlock both => (analyze_both both [], warnings)
  | MismatchingBlock orig_lines recomp_lines =>
      if negb (Nat.eqb (length orig_lines) (length recomp_lines)) then
        ([], set_structural_mismatches_present warnings)
      else
        match analyze_zip (combine orig_lines recomp_lines) [] with
        | None => ([], set_structural_mismatches_present warnings)
        | Some stack_pairs => (stack_pairs, warnings)
        end
  end.

(** ** The collection loop of compare_function_stacks

    [for block in udiff: for diff in block[1]:
       stack_pairs = stack_pairs.union(analyze_diff(diff, warnings))] *)

Definition collect_diff (acc : StackPairs * Warnings) (diff : MatchingOrMismatchingBlock)
  : StackPairs * Warnings :=
  let '(found, warnings) := analyze_diff diff (snd acc) in
  (set_union (fst acc) found, warnings).

Definition collect_block (acc : StackPairs * Warnings)
    (block : string * list MatchingOrMismatchingBlock) : StackPairs * Warnings :=
  fold_left collect_diff (snd block) acc.

Definition collect_stack_pairs (udiff : CombinedDiffOutput) (warnings : Warnings)
  : StackPairs * Warnings :=
  fold_left collect_block udiff ([], warnings).

(** ** The debug symbols of the function

    [fn_symbol.stack_symbols] ([stack_symbols_of] here) is a list of
    records with the fields used below ([sym_name] and [sym_data_type] are
    the fields [name] and [data_type] of the symbol); the location of an
    [S_BPREL32] symbol is a bracketed hexadecimal text such as
    [[FFFFFFF0]]. *)

Record StackOrRegisterSymbol := mkStackOrRegisterSymbol {
  symbol_type : string;
  location : string;
  sym_data_type : string;
  sym_name : string
}.

Record SymbolsEntry := mkSymbolsEntry {
  stack_symbols_of : list StackOrRegisterSymbol
}.

(** [s[:-1]] *)
Fixpoint drop_last (s : string) : string :=
  match s with
  | EmptyString => EmptyString
  | String c EmptyString => EmptyString
  | String c s' => String c (drop_last s')
  end.

(** [s[1:-1]] *)
Definition slice_1_m1 (s : string) : string :=
  match s with
  | EmptyString => EmptyString
  | String _ s' => drop_last s'
  end.

(** The blanks [bytes.fromhex] skips between two bytes. *)
Definition is_ascii_space (c : ascii) : bool :=
  (char_between "009" "013" c || Ascii.eqb c " ")%bool.

(** [bytes.fromhex]: pairs of hexadecimal digits, blanks allowed between
    the pairs; [None] stands for [ValueError]. *)
Fixpoint bytes_fromhex (s : string) : option (list Z) :=
  match s with
  | EmptyString => Some []
  | String c s' =>
      if is_ascii_space c then bytes_fromhex s'
      else
        match s' with
        | EmptyString => None
        | String d s'' =>
            match hex_digit_value c, hex_digit_value d, bytes_fromhex s'' with
            | Some hi, Some lo, Some rest => Some ((16 * hi + lo) :: rest)
            | _, _, _ => None
            end
        end
  end.

(** [struct.unpack(">l", b)[0]]: a signed 32 bit big-endian integer;
    [None] stands for [struct.error] (not exactly four bytes). *)
Definition struct_unpack_be_l (b : list Z) : option Z :=
  match b with
  | [b0; b1; b2; b3] =>
      let u := ((b0 * 256 + b1) * 256 + b2) * 256 + b3 in
      Some (if u <? 2 ^ 31 then u else u - 2 ^ 32)
  | _ => None
  end.

(** The loop that fills [stack_symbols]; [None] when a location does not
    decode (the exception leaves [compare_function_stacks]). *)
Fixpoint build_stack_symbols (symbols : list StackOrRegisterSymbol)
    (stack_symbols : gmap Z StackSymbol) : option (gmap Z StackSymbol) :=
  match symbols with
  | [] => Some stack_symbols
  | sym :: rest =>
      if String.eqb (symbol_type sym) "S_BPREL32" then
        match bytes_fromhex (slice_1_m1 (location sym)) with
        | None => None
        | Some hex_bytes =>
            match struct_unpack_be_l hex_bytes with
            | None => None
            | Some stack_offset =>
                build_stack_symbols rest
                  (<[stack_offset := mkStackSymbol (sym_name sym) (sym_data_type sym)]>
                     stack_symbols)
            end
        end
      else build_stack_symbols rest stack_symbols
  end.

(** ** Symbol enrichment

    [for _, recomp in stack_pairs: if recomp.register == "ebp":
       recomp.symbol = stack_symbols.get(recomp.offset)]

    The assignment mutates the recomp object of the pair in place.  Every
    pair of the set was built with a recomp object of its own
    ([match.copy()] in an aligned block, a second extractor call in a
    divergent one), so no other reference observes the write, and the
    hash and equality of the pair do not read the symbol: the set keeps
    its elements and their order. *)

Definition enrich_pair (stack_symbols : gmap Z StackSymbol) (p : StackPair) : StackPair :=
  if String.eqb (register (recomp p)) "ebp" then
    mkStackPair (orig p)
      (mkStackRegisterOffset (register (recomp p)) (offset (recomp p))
         (stack_symbols !! offset (recomp p)))
  else p.

Definition enrich (stack_symbols : gmap Z StackSymbol) (stack_pairs : StackPairs)
  : StackPairs :=
  map (enrich_pair stack_symbols) stack_pairs.

(** ** Report output

    A printed line is recorded as an event.  The text arguments of the
    print helpers are kept in the form they are computed from: [Str x] is
    [str(x)] and [ListStr xs] is [format_list_of_offsets(xs)]. *)

Inductive Rendered :=
| Str (x : StackRegisterOffset)
| ListStr (xs : list StackRegisterOffset).

Inductive Output :=
| HeaderOriginal
    (* print("\nOrdered by original stack (left=orig, right=recomp):") *)
| HeaderRecomp
    (* print("\nOrdered by recomp stack (left=orig, right=recomp):") *)
| BijectiveMatch (left right : Rendered) (exact : bool)
    (* print_bijective_match(left, right, exact) *)
| NonBijectiveMatch (left right : Rendered)
    (* print_non_bijective_match(left, right) *)
| NotSeen (stack_offset : StackRegisterOffset)
    (* print(f"{UNCLEAR_ICON}  not seen:   {stack_offset}") *)
| Legend
    (* the legend of print_footer *)
| ErrorNotBijective
    (* "ERROR: The stack variables of original and recomp are not in a 1:1 correspondence, ..." *)
| WarningStructural
    (* "WARNING: Original and recomp have at least one structural discrepancy, ..." *).

(** [sorted(s)] for a set of integers. *)
Definition sorted (s : gset Z) : list Z := merge_sort Z.le (elements s).

(** ** print_by_original_stack *)

(** [next(x.orig for x in stack_pairs if x.orig.offset == orig_offset)];
    [None] stands for [StopIteration]. *)
Definition first_orig (stack_pairs : StackPairs) (orig_offset : Z)
  : option StackRegisterOffset :=
  head (map orig (List.filter (fun x => Z.eqb (offset (orig x)) orig_offset) stack_pairs)).

(** [[x.recomp for x in stack_pairs if x.orig == orig]] *)
Definition recomps_of (stack_pairs : StackPairs) (orig0 : StackRegisterOffset)
  : list StackRegisterOffset :=
  map recomp (List.filter (fun x => sro_eq (orig x) orig0) stack_pairs).

(** The body of the loop over the sorted original offsets. *)
Definition by_original_entry (stack_pairs : StackPairs) (orig_offset : Z)
    (warnings : Warnings) : option (Output * Warnings) :=
  match first_orig stack_pairs orig_offset with
  | None => None
  | Some orig0 =>
      match recomps_of stack_pairs orig0 with
      | [recomp0] =>
          Some (BijectiveMatch (Str orig0) (Str recomp0) (sro_eq orig0 recomp0), warnings)
      | recomps =>
          Some (NonBijectiveMatch (Str orig0) (ListStr recomps),
                set_error_map_not_bijective warnings)
      end
  end.

Fixpoint by_original_loop (stack_pairs : StackPairs) (offsets : list Z)
    (warnings : Warnings) : option (list Output * Warnings) :=
  match offsets with
  | [] => Some ([], warnings)
  | orig_offset :: rest =>
      match by_original_entry stack_pairs orig_offset warnings with
      | None => None
      | Some (line, warnings1) =>
          match by_original_loop stack_pairs rest warnings1 with
          | None => None
          | Some (lines, warnings2) => Some (line :: lines, warnings2)
          end
      end
  end.

Definition all_orig_offsets (stack_pairs : StackPairs) : gset Z :=
  list_to_set (map (fun x => offset (orig x)) stack_pairs).

Definition print_by_original_stack (stack_pairs : StackPairs) (warnings : Warnings)
  : option (list Output * Warnings) :=
  match by_original_loop stack_pairs (sorted (all_orig_offsets stack_pairs)) warnings with
  | None => None
  | Some (lines, warnings1) => Some (HeaderOriginal :: lines, warnings1)
  end.

(** ** print_by_recomp_stack *)

(** [next((x.recomp for x in stack_pairs if x.recomp.offset == recomp_offset), None)] *)
Definition first_recomp (stack_pairs : StackPairs) (recomp_offset : Z)
  : option StackRegisterOffset :=
  head (map recomp (List.filter (fun x => Z.eqb (offset (recomp x)) recomp_offset) stack_pairs)).

(** [[x.orig for x in stack_pairs if x.recomp == recomp]] *)
Definition origs_of (stack_pairs : StackPairs) (recomp0 : StackRegisterOffset)
  : list StackRegisterOffset :=
  map orig (List.filter (fun x => sro_eq (recomp x) recomp0) stack_pairs).

(** The body of the loop over the sorted recomp offsets; [None] stands for
    the [KeyError] of [stack_symbols[recomp_offset]]. *)
Definition by_recomp_entry (stack_pairs : StackPairs)
    (stack_symbols : gmap Z StackSymbol) (recomp_offset : Z)
    (warnings : Warnings) : option (Output * Warnings) :=
  match first_recomp stack_pairs recomp_offset with
  | None =>
      match stack_symbols !! recomp_offset with
      | None => None
      | Some sym =>
          Some (NotSeen (mkStackRegisterOffset "ebp" recomp_offset (Some sym)), warnings)
      end
  | Some recomp0 =>
      match origs_of stack_pairs recomp0 with
      | [orig0] =>
          Some (BijectiveMatch (Str orig0) (Str recomp0) (sro_eq orig0 recomp0), warnings)
      | origs =>
          Some (NonBijectiveMatch (ListStr origs) (Str recomp0),
                set_error_map_not_bijective warnings)
      end
  end.

Fixpoint by_recomp_loop (stack_pairs : StackPairs)
    (stack_symbols : gmap Z StackSymbol) (offsets : list Z)
    (warnings : Warnings) : option (list Output * Warnings) :=
  match offsets with
  | [] => Some ([], warnings)
  | recomp_offset :: rest =>
      match by_recomp_entry stack_pairs stack_symbols recomp_offset warnings with
      | None => None
      | Some (line, warnings1) =>
          match by_recomp_loop stack_pairs stack_symbols rest warnings1 with
          | None => None
          | Some (lines, warnings2) => Some (line :: lines, warnings2)
          end
      end
  end.

Definition all_recomp_offsets (stack_pairs : StackPairs)
    (stack_symbols : gmap Z StackSymbol) : gset Z :=
  list_to_set (map (fun x => offset (recomp x)) stack_pairs) ∪ dom stack_symbols.

Definition print_by_recomp_stack (stack_pairs : StackPairs)
    (stack_symbols : gmap Z StackSymbol) (warnings : Warnings)
  : option (list Output * Warnings) :=
  match by_recomp_loop stack_pairs stack_symbols
          (sorted (all_recomp_offsets stack_pairs stack_symbols)) warnings with
  | None => None
  | Some (lines, warnings1) => Some (HeaderRecomp :: lines, warnings1)
  end.

(** ** print_footer *)

Definition print_footer (warnings : Warnings) : list Output :=
  Legend ::
  (if error_map_not_bijective warnings then [ErrorNotBijective]
   else if structural_mismatches_present warnings then [WarningStructural]
   else []).

(** ** The classifier and reporter: the three calls that end
    compare_function_stacks *)

Definition report (stack_pairs : StackPairs) (stack_symbols : gmap Z StackSymbol)
    (warnings : Warnings) : option (list Output * Warnings) :=
  match print_by_original_stack stack_pairs warnings with
  | None => None
  | Some (out1, warnings1) =>
      match print_by_recomp_stack stack_pairs stack_symbols warnings1 with
      | None => None
      | Some (out2, warnings2) =>
          Some (out1 ++ out2 ++ print_footer warnings2, warnings2)
      end
  end.

(** ** compare_function_stacks

    [iteration_order] is the order in which Python iterates the final set
    of pairs; it is the same for every loop over the set, which is not
    modified after the collection. *)

Section Iteration.

Variable iteration_order : StackPairs -> StackPairs.

Definition compare_function_stacks (udiff : CombinedDiffOutput)
    (fn_symbol : SymbolsEntry) : option (list Output * Warnings) :=
  let '(collected, warnings) := collect_stack_pairs udiff (mkWarnings false false) in
  match build_stack_symbols (stack_symbols_of fn_symbol) ∅ with
  | None => None
  | Some stack_symbols =>
      let stack_pairs := enrich stack_symbols (iteration_order collected) in
      report stack_pairs stack_symbols warnings
  end.

End Iteration.

(** ** Notions used in the statements *)

(** A reference without a symbol, as the extractor builds it. *)
Definition sro (r : string) (o : Z) : StackRegisterOffset :=
  mkStackRegisterOffset r o None.

(** What a region contributes does not depend on the flags it is given,
    and the only write of [analyze_diff] to the flags raises the
    structural mismatch: the two components of its result. *)
Definition region_pairs (d : MatchingOrMismatchingBlock) : StackPairs :=
  fst (analyze_diff d (mkWarnings false false)).

Definition region_mismatch (d : MatchingOrMismatchingBlock) : bool :=
  structural_mismatches_present (snd (analyze_diff d (mkWarnings false false))).

Definition flag_structural (b : bool) (w : Warnings) : Warnings :=
  if b then set_structural_mismatches_present w else w.

(** The line a view prints for one offset, and whether that offset raises
    the flag: the two effects of one turn of its loop. *)
Definition flag_not_bijective (b : bool) (w : Warnings) : Warnings :=
  if b then set_error_map_not_bijective w else w.

Definition original_line (stack_pairs : StackPairs) (o : Z) : option Output :=
  option_map fst (by_original_entry stack_pairs o (mkWarnings false false)).

Definition original_ambiguous (stack_pairs : StackPairs) (o : Z) : bool :=
  match by_original_entry stack_pairs o (mkWarnings false false) with
  | Some (_, w) => error_map_not_bijective w
  | None => false
  end.

Definition recomp_line (stack_pairs : StackPairs)
    (stack_symbols : gmap Z StackSymbol) (o : Z) : option Output :=
  option_map fst (by_recomp_entry stack_pairs stack_symbols o (mkWarnings false false)).

Definition recomp_ambiguous (stack_pairs : StackPairs)
    (stack_symbols : gmap Z StackSymbol) (o : Z) : bool :=
  match by_recomp_entry stack_pairs stack_symbols o (mkWarnings false false) with
  | Some (_, w) => error_map_not_bijective w
  | None => false
  end.

(** The references on the two sides of a report line. *)
Definition rendered_refs (x : Rendered) : list StackRegisterOffset :=
  match x with
  | Str a => [a]
  | ListStr l => l
  end.

Definition line_left (e : Output) : list StackRegisterOffset :=
  match e with
  | BijectiveMatch l _ _ => rendered_refs l
  | NonBijectiveMatch l _ => rendered_refs l
  | _ => []
  end.

Definition line_right (e : Output) : list StackRegisterOffset :=
  match e with
  | BijectiveMatch _ r _ => rendered_refs r
  | NonBijectiveMatch _ r => rendered_refs r
  | NotSeen x => [x]
  | _ => []
  end.

(** A line of the by-original view is about offset [o] when its left
    reference has that offset; a line of the by-recomp view when its right
    reference has. *)
Definition left_at (o : Z) (e : Output) : bool :=
  existsb (fun x => Z.eqb (offset x) o) (line_left e).

Definition right_at (o : Z) (e : Output) : bool :=
  existsb (fun x => Z.eqb (offset x) o) (line_right e).

(** A region [bad] is skipped by [compare_function_stacks] when, wherever
    it stands in the diff of a function, (1) the collected set is the one
    collected from the other regions, (2) the flags are those of the other
    regions with the structural mismatch raised, (3) every pair found by a
    region of the diff is in the collected set, and (4) the two views
    print the lines they print for the other regions alone (for every
    iteration order of the set and every symbol table). *)
Definition region_is_skipped (bad : MatchingOrMismatchingBlock) : Prop :=
  forall hunks1 header ds1 ds2 hunks2 w,
    let udiff := hunks1 ++ (header, ds1 ++ bad :: ds2) :: hunks2 in
    let others := hunks1 ++ (header, ds1 ++ ds2) :: hunks2 in
    fst (collect_stack_pairs udiff w) = fst (collect_stack_pairs others w) /\
    snd (collect_stack_pairs udiff w) =
      set_structural_mismatches_present (snd (collect_stack_pairs others w)) /\
    (forall block d p w0,
        In block udiff -> In d (snd block) -> In p (fst (analyze_diff d w0)) ->
        set_contains p (fst (collect_stack_pairs udiff w)) = true) /\
    (forall (order : StackPairs -> StackPairs) syms,
        option_map fst
          (print_by_original_stack
             (enrich syms (order (fst (collect_stack_pairs udiff w))))
             (snd (collect_stack_pairs udiff w))) =
        option_map fst
          (print_by_original_stack
             (enrich syms (order (fst (collect_stack_pairs others w))))
             (snd (collect_stack_pairs others w))) /\
        option_map fst
          (print_by_recomp_stack
             (enrich syms (order (fst (collect_stack_pairs udiff w)))) syms
             (snd (collect_stack_pairs udiff w))) =
        option_map fst
          (print_by_recomp_stack
             (enrich syms (order (fst (collect_stack_pairs others w)))) syms
             (snd (collect_stack_pairs others w)))).

(** A text made of digits of [[0-9a-f]] only. *)
Fixpoint all_hex (s : string) : bool :=
  match s with
  | EmptyString => true
  | String c s' => (is_hex c && all_hex s')%bool
  end.

(** A pair whose two references were read from instruction texts. *)
Definition from_extractor (p : StackPair) : Prop :=
  exists orig_text recomp_text,
    extract_stack_offset_from_instruction orig_text = Some (orig p) /\
    extract_stack_offset_from_instruction recomp_text = Some (recomp p).

(** The registers and offsets of a pair: what its hash and equality read. *)
Definition pair_key (p : StackPair) : (string * Z) * (string * Z) :=
  ((register (orig p), offset (orig p)), (register (recomp p), offset (recomp p))).

(** The offset [compare_function_stacks] reads from the location of an
    [S_BPREL32] symbol: [struct.unpack(">l", bytes.fromhex(location[1:-1]))[0]],
    [None] when one of the two calls raises. *)
Definition location_offset (loc : string) : option Z :=
  match bytes_fromhex (slice_1_m1 loc) with
  | Some hex_bytes => struct_unpack_be_l hex_bytes
  | None => None
  end.

(** [symbol.symbol_type == "S_BPREL32"] *)
Definition is_bprel (sym : StackOrRegisterSymbol) : bool :=
  String.eqb (symbol_type sym) "S_BPREL32".

(** The table entry made from a symbol. *)
Definition symbol_entry (sym : StackOrRegisterSymbol) : StackSymbol :=
  mkStackSymbol (sym_name sym) (sym_data_type sym).

(** A line printed by [print_non_bijective_match]. *)
Definition is_non_bijective (e : Output) : bool :=
  match e with
  | NonBijectiveMatch _ _ => true
  | _ => false
  end.

(** The offsets of the left, of the right references of a list of lines. *)
Definition left_offsets (lines : list Output) : list Z :=
  flat_map (fun e => map offset (line_left e)) lines.

Definition right_offsets (lines : list Output) : list Z :=
  flat_map (fun e => map offset (line_right e)) lines.

(** A list that holds no two equal pairs, as a set does. *)
Fixpoint distinct_pairs (s : StackPairs) : bool :=
  match s with
  | [] => true
  | p :: rest => (negb (set_contains p rest) && distinct_pairs rest)%bool
  end.

(** * Properties *)

(** ** Worked examples *)

Example str_negative :
  StackRegisterOffset_str (sro "ebp" (-8)) = "ebp - 0x08".
Proof. reflexivity. Qed.

Example str_with_symbol :
  StackRegisterOffset_str
    (mkStackRegisterOffset "ebp" 84668 (Some (mkStackSymbol "m_flags" "T_INT4")))
  = "ebp + 0x14abc  m_flags".
Proof. reflexivity. Qed.

(** An upper-case digit is not in [[0-9a-f]]: the optional prefix is given
    up and the literal is the single digit [0]. *)
Example extract_upper_case :
  extract_stack_offset_from_instruction "mov eax, [ebp - 0xC]" = Some (sro "ebp" 0).
Proof. reflexivity. Qed.

(** The literal is always read in base 16. *)
Example extract_no_prefix :
  extract_stack_offset_from_instruction "lea ecx, [esp + 10]" = Some (sro "esp" 16).
Proof. reflexivity. Qed.

(** A register that is not followed by blank, sign, blank and literal. *)
Example extract_bare_register :
  extract_stack_offset_from_instruction "mov ebp, esp" = None.
Proof. reflexivity. Qed.

Example demo_report :
  compare_function_stacks (fun l => l)
    [("@@", [MatchingBlock [("0x10", "mov eax, [ebp - 0x8]", "0x20")];
             MismatchingBlock [("0x14", "mov ecx, [ebp - 0x4]")]
                              [("0x24", "mov ecx, [ebp - 0xc]")]])]
    (mkSymbolsEntry [mkStackOrRegisterSymbol "S_BPREL32" "[FFFFFFF0]" "T_INT4" "m_flags"])
  = Some ([HeaderOriginal;
           BijectiveMatch (Str (sro "ebp" (-8))) (Str (sro "ebp" (-8))) true;
           BijectiveMatch (Str (sro "ebp" (-4))) (Str (sro "ebp" (-12))) false;
           HeaderRecomp;
           NotSeen (mkStackRegisterOffset "ebp" (-16) (Some (mkStackSymbol "m_flags" "T_INT4")));
           BijectiveMatch (Str (sro "ebp" (-4))) (Str (sro "ebp" (-12))) false;
           BijectiveMatch (Str (sro "ebp" (-8))) (Str (sro "ebp" (-8))) true;
           Legend], mkWarnings false false).
Proof. vm_compute. reflexivity. Qed.

(** ** The offset extractor *)

Section Extractor.

Lemma match_here_register s m :
  match_here s = Some m ->
  (group_register m = "ebp" \/ group_register m = "esp") /\
  String.prefix (group_register m) s = true.
Proof.
  unfold match_here.
  destruct s as [|c1 [|r [|c3 [|w1 [|sg [|w2 rest]]]]]]; try discriminate.
  destruct (Ascii.eqb c1 "e") eqn:E1; simpl; try discriminate.
  destruct (is_s_or_b r) eqn:E2; simpl; try discriminate.
  destruct (Ascii.eqb c3 "p") eqn:E3; simpl; try discriminate.
  destruct (is_space w1 && is_sign sg && is_space w2)%bool; simpl;
    try discriminate.
  destruct (match_offset rest); try discriminate.
  intros [= <-]. simpl.
  apply Ascii.eqb_eq in E1, E3. subst c1 c3.
  unfold is_s_or_b in E2. apply orb_true_iff in E2.
  destruct E2 as [E2|E2]; apply Ascii.eqb_eq in E2; subst r; simpl.
  - split; [right; reflexivity|].
    destruct (ascii_dec "e" "e"), (ascii_dec "s" "s"), (ascii_dec "p" "p");
      congruence.
  - split; [left; reflexivity|].
    destruct (ascii_dec "e" "e"), (ascii_dec "b" "b"), (ascii_dec "p" "p");
      congruence.
Qed.

Lemma search_register s m :
  STACK_ENTRY_REGEX_search s = Some m ->
  (group_register m = "ebp" \/ group_register m = "esp") /\
  contains (group_register m) s = true.
Proof.
  induction s as [|c s IH]; cbn [STACK_ENTRY_REGEX_search contains].
  - discriminate.
  - destruct (match_here (String c s)) as [m'|] eqn:E.
    + intros [= <-]. apply match_here_register in E as [Hr Hp].
      split; [exact Hr|]. rewrite Hp. reflexivity.
    + intros H. apply IH in H as [Hr Hc]. split; [exact Hr|].
      rewrite Hc. apply orb_true_r.
Qed.

(** A line that mentions neither register has no match. *)
Lemma search_silent s :
  mentions_stack_register s = false -> STACK_ENTRY_REGEX_search s = None.
Proof.
  unfold mentions_stack_register. intros H.
  apply orb_false_iff in H as [Hb Hs].
  destruct (STACK_ENTRY_REGEX_search s) as [m|] eqn:E; [|reflexivity].
  apply search_register in E as [[Hr|Hr] Hc]; rewrite Hr in Hc; congruence.
Qed.

(** The text of the repetition is a non-empty run of hexadecimal
    digits. *)
Lemma hex_plus_digits s d :
  hex_plus s = Some d ->
  d <> EmptyString /\ forall acc, exists v, hex_digits_value acc d = Some v.
Proof.
  revert d. induction s as [|c s IH]; simpl; intros d; [discriminate|].
  destruct (is_hex c) eqn:Hc; [|discriminate].
  assert (Hv : exists x, hex_digit_value c = Some x).
  { unfold is_hex in Hc. unfold hex_digit_value.
    destruct (char_between "0" "9" c); [eauto|].
    simpl in Hc. rewrite Hc. eauto. }
  destruct Hv as [x Hx].
  destruct (hex_plus s) as [d'|].
  - intros [= <-]. split; [discriminate|].
    intros acc. simpl. rewrite Hx. apply (IH d' eq_refl).
  - destruct (not_followed_by_hex s); [|discriminate].
    intros [= <-]. split; [discriminate|].
    intros acc. simpl. rewrite Hx. eauto.
Qed.

Lemma hex_plus_first s d :
  hex_plus s = Some d -> exists c d', d = String c d' /\ is_hex c = true.
Proof.
  destruct s as [|c s]; simpl; [discriminate|].
  destruct (is_hex c) eqn:Hc; [|discriminate].
  destruct (hex_plus s).
  - intros [= <-]. eauto.
  - destruct (not_followed_by_hex s); [|discriminate]. intros [= <-]. eauto.
Qed.

Lemma hex_plus_second s c1 c2 d :
  hex_plus s = Some (String c1 (String c2 d)) -> is_hex c2 = true.
Proof.
  destruct s as [|a s]; simpl; [discriminate|].
  destruct (is_hex a); [|discriminate].
  destruct (hex_plus s) as [d'|] eqn:E.
  - intros [= -> ->]. apply hex_plus_first in E as (c & d'' & [= -> ->] & Hc).
    exact Hc.
  - destruct (not_followed_by_hex s); discriminate.
Qed.

Lemma match_offset_cases s off :
  match_offset s = Some off ->
  (exists r d, off = String "0" (String "x" d) /\ hex_plus r = Some d) \/
  hex_plus s = Some off.
Proof.
  unfold match_offset.
  destruct s as [|a [|b r]]; auto.
  destruct (Ascii.eqb a "0" && Ascii.eqb b "x")%bool eqn:Hp; auto.
  destruct (hex_plus r) as [d|] eqn:Hd; auto.
  intros [= <-]. left. exists r, d.
  apply andb_true_iff in Hp as [Ha Hb].
  apply Ascii.eqb_eq in Ha, Hb. subst. auto.
Qed.

(** A run of digits has no [0x] prefix to strip. *)
Lemma hex_plus_no_prefix s d :
  hex_plus s = Some d -> strip_hex_prefix d = d.
Proof.
  intros H. destruct d as [|o1 [|o2 d']]; try reflexivity.
  apply hex_plus_second in H. unfold strip_hex_prefix.
  destruct (Ascii.eqb o2 "x") eqn:Hx.
  { apply Ascii.eqb_eq in Hx. subst o2. discriminate. }
  destruct (Ascii.eqb o2 "X") eqn:HX.
  { apply Ascii.eqb_eq in HX. subst o2. discriminate. }
  rewrite andb_false_r. reflexivity.
Qed.

Lemma match_offset_parses s off :
  match_offset s = Some off ->
  exists d v, strip_hex_prefix off = d /\ d <> EmptyString /\
              hex_digits_value 0 d = Some v.
Proof.
  intros H. apply match_offset_cases in H as [(r & d & -> & Hd)|Hd].
  - pose proof (hex_plus_digits _ _ Hd) as [Hne Hv].
    destruct (Hv 0) as [v Hv0]. exists d, v. auto.
  - pose proof (hex_plus_digits _ _ Hd) as [Hne Hv].
    destruct (Hv 0) as [v Hv0]. exists off, v.
    split; [apply (hex_plus_no_prefix _ _ Hd)|auto].
Qed.

Lemma int_base16_signed sg off d v :
  is_sign sg = true -> strip_hex_prefix off = d -> d <> EmptyString ->
  hex_digits_value 0 d = Some v ->
  int_base16 (String sg off) = Some (if Ascii.eqb sg "+" then v else - v).
Proof.
  intros Hsg Hs Hne Hv. unfold int_base16.
  destruct (Ascii.eqb sg "+") eqn:Hp.
  - rewrite Hs. destruct d; [congruence|]. rewrite Hv. reflexivity.
  - unfold is_sign in Hsg. rewrite Hp in Hsg. simpl in Hsg. rewrite Hsg.
    rewrite Hs. destruct d; [congruence|]. rewrite Hv. reflexivity.
Qed.

(** [int] accepts the sign and the literal of every match: the
    [ValueError] branch of the model is never taken. *)
Lemma int_of_groups s m :
  match_here s = Some m ->
  exists v, int_base16 (String.append (group_sign m) (group_offset m)) = Some v.
Proof.
  unfold match_here.
  destruct s as [|c1 [|r [|c3 [|w1 [|sg [|w2 rest]]]]]]; try discriminate.
  destruct (Ascii.eqb c1 "e" && is_s_or_b r && Ascii.eqb c3 "p" && is_space w1)%bool;
    simpl; try discriminate.
  destruct (is_sign sg) eqn:Hsg; simpl; try discriminate.
  destruct (is_space w2); simpl; try discriminate.
  destruct (match_offset rest) as [off|] eqn:Hoff; try discriminate.
  intros [= <-].
  apply match_offset_parses in Hoff as (d & v & Hs & Hne & Hv).
  eexists. exact (int_base16_signed sg off d v Hsg Hs Hne Hv).
Qed.

Lemma search_from_match_here s m :
  STACK_ENTRY_REGEX_search s = Some m -> exists t, match_here t = Some m.
Proof.
  induction s as [|c s IH]; cbn [STACK_ENTRY_REGEX_search].
  - discriminate.
  - destruct (match_here (String c s)) eqn:E.
    + intros [= <-]. eauto.
    + exact IH.
Qed.

(** The extractor returns a reference exactly when the regex matches. *)
Lemma extract_none_iff_no_match s :
  extract_stack_offset_from_instruction s = None <->
  STACK_ENTRY_REGEX_search s = None.
Proof.
  unfold extract_stack_offset_from_instruction.
  destruct (STACK_ENTRY_REGEX_search s) as [m|] eqn:E; [|tauto].
  apply search_from_match_here in E as [t Ht].
  apply int_of_groups in Ht as [v ->]. split; discriminate.
Qed.

(** The register of an extracted reference is one of the two stack
    registers, and the reference carries no symbol. *)
Lemma extract_shape s x :
  extract_stack_offset_from_instruction s = Some x ->
  (register x = "ebp" \/ register x = "esp") /\ symbol x = None.
Proof.
  unfold extract_stack_offset_from_instruction.
  destruct (STACK_ENTRY_REGEX_search s) as [m|] eqn:E; [|discriminate].
  destruct (int_base16 _); [|discriminate].
  intros [= <-]. simpl. apply search_register in E as [Hr _]. tauto.
Qed.

(** A match found behind a prefix that mentions no stack register is the
    match of the whole line. *)
Lemma match_here_starts_with_e s m :
  match_here s = Some m -> exists s', s = String "e" s'.
Proof.
  unfold match_here.
  destruct s as [|c1 [|r [|c3 [|w1 [|sg [|w2 rest]]]]]]; try discriminate.
  destruct (Ascii.eqb c1 "e") eqn:E1; simpl; try discriminate.
  apply Ascii.eqb_eq in E1. subst c1. eauto.
Qed.

Lemma prefix_three a b c s :
  String.prefix (String a (String b (String c EmptyString))) s = true ->
  exists s', s = String a (String b (String c s')).
Proof.
  destruct s as [|x [|y [|z s']]]; simpl.
  - discriminate.
  - destruct (ascii_dec a x); discriminate.
  - destruct (ascii_dec a x); [|discriminate].
    destruct (ascii_dec b y); discriminate.
  - destruct (ascii_dec a x); [|discriminate].
    destruct (ascii_dec b y); [|discriminate].
    destruct (ascii_dec c z); [|discriminate].
    subst. eauto.
Qed.

Lemma prefix_three_refl a b c s :
  String.prefix (String a (String b (String c EmptyString)))
                (String a (String b (String c s))) = true.
Proof.
  simpl. destruct (ascii_dec a a), (ascii_dec b b), (ascii_dec c c); try congruence.
  destruct s; reflexivity.
Qed.

Lemma match_here_behind_prefix c pre rest m m' :
  mentions_stack_register (String c pre) = false ->
  match_here rest = Some m ->
  match_here (String c (String.append pre rest)) = Some m' -> False.
Proof.
  intros Hpre Hrest Hm.
  apply match_here_starts_with_e in Hrest as [rest' ->].
  apply match_here_register in Hm as [Hreg Hp].
  unfold mentions_stack_register in Hpre.
  apply orb_false_iff in Hpre as [Hb Hs].
  cbn [contains] in Hb, Hs.
  apply orb_false_iff in Hb as [Hb _]. apply orb_false_iff in Hs as [Hs _].
  assert (Hcase : forall x, group_register m' = String "e" (String x (String "p" EmptyString)) ->
                            String.prefix (group_register m') (String c pre) = true).
  { intros x Hx. rewrite Hx in Hp |- *.
    apply prefix_three in Hp as [s' Hs'].
    injection Hs' as -> Hs'.
    destruct pre as [|c2 [|c3 pre']]; cbn in Hs'.
    - injection Hs' as <- _.
      destruct Hreg as [H|H]; rewrite H in Hx; discriminate.
    - injection Hs' as -> Hs'. discriminate.
    - injection Hs' as -> -> _. apply prefix_three_refl. }
  destruct Hreg as [Hr|Hr].
  - pose proof (Hcase "b"%char Hr) as H. rewrite Hr in H. congruence.
  - pose proof (Hcase "s"%char Hr) as H. rewrite Hr in H. congruence.
Qed.

Lemma append_empty s : String.append EmptyString s = s.
Proof. reflexivity. Qed.

Lemma append_String c a b :
  String.append (String c a) b = String c (String.append a b).
Proof. reflexivity. Qed.

Lemma search_behind_prefix pre rest m :
  mentions_stack_register pre = false ->
  match_here rest = Some m ->
  STACK_ENTRY_REGEX_search (String.append pre rest) = Some m.
Proof.
  induction pre as [|c pre IH]; intros Hpre Hrest.
  - rewrite append_empty. destruct rest as [|c r]; [discriminate Hrest|].
    cbn [STACK_ENTRY_REGEX_search]. rewrite Hrest. reflexivity.
  - rewrite append_String. cbn [STACK_ENTRY_REGEX_search].
    destruct (match_here (String c (String.append pre rest))) as [m'|] eqn:E.
    + exfalso. exact (match_here_behind_prefix c pre rest m m' Hpre Hrest E).
    + apply IH; [|exact Hrest].
      unfold mentions_stack_register in *.
      apply orb_false_iff in Hpre as [Hb Hs]. cbn [contains] in Hb, Hs.
      apply orb_false_iff in Hb as [_ Hb]. apply orb_false_iff in Hs as [_ Hs].
      rewrite Hb, Hs. reflexivity.
Qed.

(** The repetition stops where no digit follows. *)
Lemma hex_plus_stop post :
  not_followed_by_hex post = true -> hex_plus post = None.
Proof.
  destruct post as [|c post]; simpl; [reflexivity|].
  destruct (is_hex c); [discriminate|reflexivity].
Qed.

Lemma hex_plus_run d post :
  d <> EmptyString -> all_hex d = true -> not_followed_by_hex post = true ->
  hex_plus (String.append d post) = Some d.
Proof.
  induction d as [|c d IH]; [congruence|]. intros _ Hall Hpost.
  cbn [all_hex] in Hall. apply andb_true_iff in Hall as [Hc Hd].
  rewrite append_String. cbn [hex_plus]. rewrite Hc.
  destruct d as [|c' d'].
  - rewrite append_empty, (hex_plus_stop post Hpost), Hpost. reflexivity.
  - rewrite IH; [reflexivity|discriminate|exact Hd|exact Hpost].
Qed.

(** A register, a sign and a prefixed literal, followed by a character
    that is not a digit: the match takes the whole literal. *)
Lemma match_here_literal r sg d post :
  is_s_or_b r = true -> is_sign sg = true ->
  d <> EmptyString -> all_hex d = true -> not_followed_by_hex post = true ->
  match_here
    (String "e" (String r (String "p" (String " " (String sg (String " "
       (String "0" (String "x" (String.append d post)))))))))
  = Some (mkMatch (String "e" (String r (String "p" EmptyString)))
                  (String sg EmptyString) (String "0" (String "x" d))).
Proof.
  intros Hr Hsg Hne Hall Hpost. unfold match_here, match_offset.
  rewrite Hr, Hsg, (hex_plus_run d post Hne Hall Hpost).
  reflexivity.
Qed.

Lemma all_hex_value d :
  all_hex d = true -> forall acc, exists v, hex_digits_value acc d = Some v.
Proof.
  induction d as [|c d IH]; intros Hall acc; cbn [hex_digits_value]; [eauto|].
  cbn [all_hex] in Hall. apply andb_true_iff in Hall as [Hc Hd].
  unfold is_hex in Hc. unfold hex_digit_value.
  destruct (char_between "0" "9" c); [apply IH, Hd|].
  simpl in Hc. rewrite Hc. apply IH, Hd.
Qed.

(** The reading of a line that holds such a reference behind a prefix
    without stack register. *)
Lemma extract_literal_in_line pre r sg d post v :
  mentions_stack_register pre = false ->
  is_s_or_b r = true -> is_sign sg = true ->
  d <> EmptyString -> all_hex d = true -> not_followed_by_hex post = true ->
  hex_digits_value 0 d = Some v ->
  extract_stack_offset_from_instruction
    (String.append pre
       (String "e" (String r (String "p" (String " " (String sg (String " "
          (String "0" (String "x" (String.append d post))))))))))
  = Some (mkStackRegisterOffset (String "e" (String r (String "p" EmptyString)))
            (if Ascii.eqb sg "+" then v else - v) None).
Proof.
  intros Hpre Hr Hsg Hne Hall Hpost Hv.
  unfold extract_stack_offset_from_instruction.
  rewrite (search_behind_prefix pre _ _ Hpre (match_here_literal r sg d post Hr Hsg Hne Hall Hpost)).
  cbn [group_sign group_offset group_register].
  rewrite append_String, append_empty.
  rewrite (int_base16_signed sg (String "0" (String "x" d)) d v Hsg eq_refl Hne Hv).
  reflexivity.
Qed.

End Extractor.

(** C8. The extractor reads [esp + 0x10] as the stack pointer with offset
    +16 and [ebp - 0x4] as the frame base with offset -4; on
    [ebp - 0x14abc] it takes the whole literal, not a shorter prefix of it;
    and a line that mentions neither [ebp] nor [esp] yields nothing.  The
    three readings are also those of every line that holds the text after
    a prefix without stack register and before a character that is not a
    digit of the literal. *)
Theorem extractor_reads_stack_references :
  extract_stack_offset_from_instruction "esp + 0x10" = Some (sro "esp" 16) /\
  extract_stack_offset_from_instruction "ebp - 0x4" = Some (sro "ebp" (-4)) /\
  extract_stack_offset_from_instruction "ebp - 0x14abc" = Some (sro "ebp" (-84668)) /\
  (forall line, mentions_stack_register line = false ->
                extract_stack_offset_from_instruction line = None) /\
  (forall pre post,
      mentions_stack_register pre = false -> not_followed_by_hex post = true ->
      extract_stack_offset_from_instruction
        (String.append pre (String.append "esp + 0x10" post)) = Some (sro "esp" 16) /\
      extract_stack_offset_from_instruction
        (String.append pre (String.append "ebp - 0x4" post)) = Some (sro "ebp" (-4)) /\
      extract_stack_offset_from_instruction
        (String.append pre (String.append "ebp - 0x14abc" post)) =
        Some (sro "ebp" (-84668))).
Proof.
  split; [reflexivity|]. split; [reflexivity|]. split; [reflexivity|]. split.
  - intros line H. apply extract_none_iff_no_match, search_silent, H.
  - intros pre post Hpre Hpost. split; [|split].
    + exact (extract_literal_in_line pre "s" "+" "10" post 16
               Hpre eq_refl eq_refl ltac:(discriminate) eq_refl Hpost eq_refl).
    + exact (extract_literal_in_line pre "b" "-" "4" post 4
               Hpre eq_refl eq_refl ltac:(discriminate) eq_refl Hpost eq_refl).
    + exact (extract_literal_in_line pre "b" "-" "14abc" post 84668
               Hpre eq_refl eq_refl ltac:(discriminate) eq_refl Hpost eq_refl).
Qed.

Lemma extractor_reads_stack_references_witness :
  mentions_stack_register "push 0x14abc" = false /\
  extract_stack_offset_from_instruction "push 0x14abc" = None /\
  mentions_stack_register "mov eax, [" = false /\
  not_followed_by_hex "]" = true /\
  extract_stack_offset_from_instruction "mov eax, [ebp - 0x14abc]" =
    Some (sro "ebp" (-84668)).
Proof.
  split; [reflexivity|]. split.
  - apply (proj1 (proj2 (proj2 (proj2 extractor_reads_stack_references)))
             "push 0x14abc").
    reflexivity.
  - split; [reflexivity|]. split; [reflexivity|].
    exact (proj2 (proj2 (proj2 (proj2 (proj2 (proj2 extractor_reads_stack_references)))
                          "mov eax, [" "]" eq_refl eq_refl))).
Defined.

(** ** Sets of pairs *)

Section PairSets.

Lemma copy_id x : copy x = x.
Proof. destruct x; reflexivity. Qed.

Lemma sro_eq_refl x : sro_eq x x = true.
Proof. unfold sro_eq. rewrite String.eqb_refl, Z.eqb_refl. reflexivity. Qed.

Lemma sro_eq_spec x y :
  sro_eq x y = true <-> register x = register y /\ offset x = offset y.
Proof.
  unfold sro_eq. rewrite andb_true_iff, String.eqb_eq, Z.eqb_eq. tauto.
Qed.

Lemma pair_eq_refl p : pair_eq p p = true.
Proof. unfold pair_eq. rewrite !sro_eq_refl. reflexivity. Qed.

Lemma pair_eq_spec p q :
  pair_eq p q = true <->
  sro_eq (orig p) (orig q) = true /\ sro_eq (recomp p) (recomp q) = true.
Proof. unfold pair_eq. apply andb_true_iff. Qed.

Lemma set_add_In p s q :
  In q (set_add p s) <-> In q s \/ (set_contains p s = false /\ q = p).
Proof.
  unfold set_add. destruct (set_contains p s) eqn:E.
  - split; [auto|]. intros [H|[H _]]; [exact H|discriminate].
  - rewrite in_app_iff. simpl. split.
    + intros [H|[<-|[]]]; auto.
    + intros [H|[_ ->]]; auto.
Qed.

Lemma set_add_Forall (P : StackPair -> Prop) p s :
  P p -> Forall P s -> Forall P (set_add p s).
Proof.
  intros Hp Hs. apply List.Forall_forall. intros q Hq.
  apply set_add_In in Hq as [Hq|[_ ->]]; [|exact Hp].
  rewrite List.Forall_forall in Hs. auto.
Qed.

Lemma set_add_contains p s : set_contains p (set_add p s) = true.
Proof.
  unfold set_add. destruct (set_contains p s) eqn:E; [exact E|].
  unfold set_contains. rewrite existsb_app. simpl.
  rewrite pair_eq_refl. apply orb_true_iff. right. reflexivity.
Qed.

Lemma set_add_keeps q p s :
  set_contains q s = true -> set_contains q (set_add p s) = true.
Proof.
  unfold set_add. destruct (set_contains p s); [auto|].
  intros H. unfold set_contains in *. rewrite existsb_app, H. reflexivity.
Qed.

Lemma set_union_Forall (P : StackPair -> Prop) s t :
  Forall P s -> Forall P t -> Forall P (set_union s t).
Proof.
  unfold set_union. revert s.
  induction t as [|p t IH]; intros s Hs Ht; simpl; [exact Hs|].
  inversion Ht; subst. apply IH; [|assumption].
  apply set_add_Forall; assumption.
Qed.

Lemma set_union_keeps q s t :
  set_contains q s = true -> set_contains q (set_union s t) = true.
Proof.
  unfold set_union. revert s.
  induction t as [|p t IH]; intros s H; simpl; [exact H|].
  apply IH, set_add_keeps, H.
Qed.

Lemma set_union_adds q s t :
  In q t -> set_contains q (set_union s t) = true.
Proof.
  unfold set_union. revert s.
  induction t as [|p t IH]; intros s H; simpl; [destruct H|].
  destruct H as [->|H].
  - apply (set_union_keeps q (set_add q s) t), set_add_contains.
  - apply IH, H.
Qed.

Lemma set_union_empty s : set_union s [] = s.
Proof. reflexivity. Qed.

End PairSets.

(** ** The diff reconciler *)

Section Reconciler.

Lemma analyze_diff_split d w :
  analyze_diff d w = (region_pairs d, flag_structural (region_mismatch d) w).
Proof.
  unfold region_pairs, region_mismatch, analyze_diff.
  destruct d as [both|ol rl]; [reflexivity|].
  destruct (negb (Nat.eqb (length ol) (length rl))); [reflexivity|].
  destruct (analyze_zip (combine ol rl) []); reflexivity.
Qed.

Lemma flag_structural_comm a b w :
  flag_structural a (flag_structural b w) = flag_structural b (flag_structural a w).
Proof. destruct a, b; reflexivity. Qed.

Lemma collect_diff_split acc d :
  collect_diff acc d =
  (set_union (fst acc) (region_pairs d), flag_structural (region_mismatch d) (snd acc)).
Proof. unfold collect_diff. rewrite analyze_diff_split. reflexivity. Qed.

(** The nested loops visit the regions of all hunks in order. *)
Lemma collect_stack_pairs_flat udiff w :
  collect_stack_pairs udiff w = fold_left collect_diff (concat (map snd udiff)) ([], w).
Proof.
  unfold collect_stack_pairs. generalize (@nil StackPair, w).
  induction udiff as [|b udiff IH]; intros acc; simpl; [reflexivity|].
  rewrite fold_left_app. apply IH.
Qed.

Lemma collect_flagged ds ps b w :
  fold_left collect_diff ds (ps, flag_structural b w) =
  (fst (fold_left collect_diff ds (ps, w)),
   flag_structural b (snd (fold_left collect_diff ds (ps, w)))).
Proof.
  revert ps w. induction ds as [|d ds IH]; intros ps w; simpl; [reflexivity|].
  rewrite !collect_diff_split. simpl.
  rewrite flag_structural_comm. apply IH.
Qed.

Lemma collect_contains ds acc q :
  set_contains q (fst acc) = true ->
  set_contains q (fst (fold_left collect_diff ds acc)) = true.
Proof.
  revert acc. induction ds as [|d ds IH]; intros acc H; simpl; [exact H|].
  apply IH. rewrite collect_diff_split. simpl. apply set_union_keeps, H.
Qed.

Lemma collect_region ds acc d q :
  In d ds -> In q (region_pairs d) ->
  set_contains q (fst (fold_left collect_diff ds acc)) = true.
Proof.
  revert acc. induction ds as [|d' ds IH]; intros acc Hd Hq; simpl; [destruct Hd|].
  destruct Hd as [->|Hd].
  - apply collect_contains. rewrite collect_diff_split. simpl.
    apply set_union_adds, Hq.
  - apply IH; assumption.
Qed.

(** A region that only raises the structural flag is skipped by the
    collection: the set is the one collected without it. *)
Lemma collect_skips_region bad hunks1 header ds1 ds2 hunks2 w :
  region_pairs bad = [] -> region_mismatch bad = true ->
  collect_stack_pairs (hunks1 ++ (header, ds1 ++ bad :: ds2) :: hunks2) w =
  (fst (collect_stack_pairs (hunks1 ++ (header, ds1 ++ ds2) :: hunks2) w),
   set_structural_mismatches_present
     (snd (collect_stack_pairs (hunks1 ++ (header, ds1 ++ ds2) :: hunks2) w))).
Proof.
  intros Hp Hm. rewrite !collect_stack_pairs_flat.
  rewrite !map_app, !concat_app. simpl. rewrite !fold_left_app.
  destruct (fold_left collect_diff (concat (map snd hunks1)) ([], w)) as [ps0 w0].
  destruct (fold_left collect_diff ds1 (ps0, w0)) as [ps1 w1].
  simpl. rewrite collect_diff_split, Hp, Hm. simpl.
  change (set_structural_mismatches_present w1) with (flag_structural true w1).
  rewrite collect_flagged.
  destruct (fold_left collect_diff ds2 (ps1, w1)) as [ps2 w2]. simpl.
  apply (collect_flagged _ ps2 true w2).
Qed.

Lemma analyze_both_Forall (P : StackPair -> Prop) lines acc :
  (forall text x, extract_stack_offset_from_instruction text = Some x ->
                  P (mkStackPair x x)) ->
  Forall P acc -> Forall P (analyze_both lines acc).
Proof.
  intros HP. revert acc.
  induction lines as [|line lines IH]; intros acc Hacc; simpl; [exact Hacc|].
  destruct (extract_stack_offset_from_instruction (snd (fst line))) as [m|] eqn:E;
    [|apply IH, Hacc].
  apply IH, set_add_Forall; [|exact Hacc]. rewrite copy_id. apply (HP _ _ E).
Qed.

Lemma analyze_zip_Forall (P : StackPair -> Prop) lines acc ps :
  (forall t1 t2 x y,
      extract_stack_offset_from_instruction t1 = Some x ->
      extract_stack_offset_from_instruction t2 = Some y ->
      P (mkStackPair x y)) ->
  Forall P acc -> analyze_zip lines acc = Some ps -> Forall P ps.
Proof.
  intros HP. revert acc.
  induction lines as [|[o r] lines IH]; intros acc Hacc; simpl.
  - intros [= <-]. exact Hacc.
  - destruct (extract_stack_offset_from_instruction (snd o)) as [x|] eqn:Ex;
      [|apply IH, Hacc].
    destruct (extract_stack_offset_from_instruction (snd r)) as [y|] eqn:Ey;
      [|discriminate].
    apply IH, set_add_Forall; [|exact Hacc]. apply (HP _ _ _ _ Ex Ey).
Qed.

Lemma region_pairs_from_extractor d w :
  Forall from_extractor (fst (analyze_diff d w)).
Proof.
  destruct d as [both|ol rl]; simpl.
  - apply analyze_both_Forall; [|constructor].
    intros text x E. exists text, text. auto.
  - destruct (negb (Nat.eqb (length ol) (length rl))); [constructor|].
    destruct (analyze_zip (combine ol rl) []) as [ps|] eqn:E; [|constructor].
    simpl. apply (analyze_zip_Forall from_extractor (combine ol rl) [] ps);
      [|constructor|exact E].
    intros t1 t2 x y Ex Ey. exists t1, t2. auto.
Qed.

Lemma collected_from_extractor udiff w :
  Forall from_extractor (fst (collect_stack_pairs udiff w)).
Proof.
  rewrite collect_stack_pairs_flat.
  assert (H : Forall from_extractor (fst (@nil StackPair, w))) by constructor.
  revert H. generalize (@nil StackPair, w).
  induction (concat (map snd udiff)) as [|d ds IH]; intros acc H; simpl; [exact H|].
  apply IH. rewrite collect_diff_split. simpl.
  apply set_union_Forall; [exact H|apply region_pairs_from_extractor].
Qed.

(** The early return of the loop over the paired lines. *)
Lemma analyze_zip_break ol rl acc i o r x :
  length ol = length rl ->
  ol !! i = Some o -> rl !! i = Some r ->
  extract_stack_offset_from_instruction (snd o) = Some x ->
  extract_stack_offset_from_instruction (snd r) = None ->
  analyze_zip (combine ol rl) acc = None.
Proof.
  revert rl acc i.
  induction ol as [|o' ol IH]; intros rl acc i Hlen Ho Hr Hx Hn.
  - destruct i; discriminate.
  - destruct rl as [|r' rl]; [discriminate|].
    injection Hlen as Hlen. simpl.
    destruct i as [|i]; simpl in Ho, Hr.
    + injection Ho as ->. injection Hr as ->. rewrite Hx, Hn. reflexivity.
    + destruct (extract_stack_offset_from_instruction (snd o')).
      * destruct (extract_stack_offset_from_instruction (snd r')); [|reflexivity].
        eapply IH; eassumption.
      * eapply IH; eassumption.
Qed.

End Reconciler.

(** ** The report views *)

Section Views.

Lemma sorted_elem (s : gset Z) o : o ∈ sorted s <-> o ∈ s.
Proof.
  unfold sorted. rewrite merge_sort_Permutation. apply elem_of_elements.
Qed.

Lemma sorted_NoDup (s : gset Z) : NoDup (sorted s).
Proof.
  unfold sorted. rewrite merge_sort_Permutation. apply NoDup_elements.
Qed.

Lemma all_orig_offsets_elem ps o :
  o ∈ all_orig_offsets ps <-> exists p, In p ps /\ offset (orig p) = o.
Proof.
  unfold all_orig_offsets. rewrite elem_of_list_to_set, list_elem_of_In, in_map_iff.
  split; intros (p & H1 & H2); eauto.
Qed.

Lemma all_recomp_offsets_elem ps syms o :
  o ∈ all_recomp_offsets ps syms <->
  (exists p, In p ps /\ offset (recomp p) = o) \/ is_Some (syms !! o).
Proof.
  unfold all_recomp_offsets.
  rewrite elem_of_union, elem_of_list_to_set, list_elem_of_In, in_map_iff, elem_of_dom.
  split; (intros [(p & H1 & H2)|H]; [left; eauto|right; exact H]).
Qed.

(** The first element of a filtered list. *)
Lemma head_filter_Some {A B} (f : A -> B) (t : A -> bool) l :
  (exists x, In x l /\ t x = true) ->
  exists x, head (map f (List.filter t l)) = Some (f x) /\ In x l /\ t x = true.
Proof.
  induction l as [|a l IH]; intros (x & Hx & Ht); [destruct Hx|].
  simpl. destruct (t a) eqn:Ea.
  - exists a. simpl. auto.
  - destruct Hx as [->|Hx]; [congruence|].
    destruct IH as (y & Hy & Hin & Hty); [eauto|].
    exists y. auto.
Qed.

Lemma head_filter_None {A B} (f : A -> B) (t : A -> bool) l :
  (forall x, In x l -> t x = false) -> head (map f (List.filter t l)) = None.
Proof.
  induction l as [|a l IH]; intros H; [reflexivity|].
  simpl. rewrite (H a) by (left; reflexivity). apply IH.
  intros x Hx. apply H. right. exact Hx.
Qed.

Lemma first_orig_Some ps o :
  (exists p, In p ps /\ offset (orig p) = o) ->
  exists p, first_orig ps o = Some (orig p) /\ In p ps /\ offset (orig p) = o.
Proof.
  intros (p & Hp & Ho).
  destruct (head_filter_Some orig (fun x => Z.eqb (offset (orig x)) o) ps)
    as (x & Hx & Hin & Ht).
  { exists p. split; [exact Hp|]. apply Z.eqb_eq, Ho. }
  exists x. apply Z.eqb_eq in Ht. auto.
Qed.

Lemma first_recomp_Some ps o :
  (exists p, In p ps /\ offset (recomp p) = o) ->
  exists p, first_recomp ps o = Some (recomp p) /\ In p ps /\ offset (recomp p) = o.
Proof.
  intros (p & Hp & Ho).
  destruct (head_filter_Some recomp (fun x => Z.eqb (offset (recomp x)) o) ps)
    as (x & Hx & Hin & Ht).
  { exists p. split; [exact Hp|]. apply Z.eqb_eq, Ho. }
  exists x. apply Z.eqb_eq in Ht. auto.
Qed.

Lemma first_recomp_None ps o :
  (forall p, In p ps -> offset (recomp p) <> o) -> first_recomp ps o = None.
Proof.
  intros H. apply head_filter_None. intros x Hx. apply Z.eqb_neq, H, Hx.
Qed.

(** One turn of a loop: the line does not depend on the flags, and the
    flags change by at most raising [error_map_not_bijective]. *)
Lemma by_original_entry_split ps o w :
  by_original_entry ps o w =
  match original_line ps o with
  | None => None
  | Some e => Some (e, flag_not_bijective (original_ambiguous ps o) w)
  end.
Proof.
  unfold original_line, original_ambiguous, by_original_entry.
  destruct (first_orig ps o) as [r|]; [|reflexivity].
  destruct (recomps_of ps r) as [|a [|b l]]; reflexivity.
Qed.

Lemma by_recomp_entry_split ps syms o w :
  by_recomp_entry ps syms o w =
  match recomp_line ps syms o with
  | None => None
  | Some e => Some (e, flag_not_bijective (recomp_ambiguous ps syms o) w)
  end.
Proof.
  unfold recomp_line, recomp_ambiguous, by_recomp_entry.
  destruct (first_recomp ps o) as [r|].
  - destruct (origs_of ps r) as [|a [|b l]]; reflexivity.
  - destruct (syms !! o); reflexivity.
Qed.

Lemma flag_not_bijective_or a b w :
  flag_not_bijective b (flag_not_bijective a w) = flag_not_bijective (a || b) w.
Proof. destruct a, b; reflexivity. Qed.

Lemma by_original_loop_split ps offs w :
  (forall o, o ∈ offs -> is_Some (original_line ps o)) ->
  exists lines,
    Forall2 (fun o e => original_line ps o = Some e) offs lines /\
    by_original_loop ps offs w =
    Some (lines, flag_not_bijective (existsb (original_ambiguous ps) offs) w).
Proof.
  revert w. induction offs as [|o offs IH]; intros w H.
  - exists []. split; [constructor|reflexivity].
  - destruct (H o) as [e He]; [left|].
    destruct (IH (flag_not_bijective (original_ambiguous ps o) w)) as (lines & HF & HL).
    { intros o' Ho'. apply H. right. exact Ho'. }
    exists (e :: lines). split; [constructor; assumption|].
    cbn [by_original_loop existsb]. rewrite by_original_entry_split, He, HL.
    rewrite flag_not_bijective_or. reflexivity.
Qed.

Lemma by_recomp_loop_split ps syms offs w :
  (forall o, o ∈ offs -> is_Some (recomp_line ps syms o)) ->
  exists lines,
    Forall2 (fun o e => recomp_line ps syms o = Some e) offs lines /\
    by_recomp_loop ps syms offs w =
    Some (lines, flag_not_bijective (existsb (recomp_ambiguous ps syms) offs) w).
Proof.
  revert w. induction offs as [|o offs IH]; intros w H.
  - exists []. split; [constructor|reflexivity].
  - destruct (H o) as [e He]; [left|].
    destruct (IH (flag_not_bijective (recomp_ambiguous ps syms o) w)) as (lines & HF & HL).
    { intros o' Ho'. apply H. right. exact Ho'. }
    exists (e :: lines). split; [constructor; assumption|].
    cbn [by_recomp_loop existsb]. rewrite by_recomp_entry_split, He, HL.
    rewrite flag_not_bijective_or. reflexivity.
Qed.

(** [StopIteration] and [KeyError] cannot happen: every offset of a loop
    has its line. *)
Lemma original_line_Some ps o :
  o ∈ all_orig_offsets ps -> is_Some (original_line ps o).
Proof.
  intros H. apply all_orig_offsets_elem, first_orig_Some in H as (p & Hp & _).
  unfold original_line, by_original_entry. rewrite Hp.
  destruct (recomps_of ps (orig p)) as [|a [|b l]]; simpl; eauto.
Qed.

Lemma recomp_line_Some ps syms o :
  o ∈ all_recomp_offsets ps syms -> is_Some (recomp_line ps syms o).
Proof.
  intros H. unfold recomp_line, by_recomp_entry.
  destruct (first_recomp ps o) as [r|] eqn:E.
  - destruct (origs_of ps r) as [|a [|b l]]; simpl; eauto.
  - apply all_recomp_offsets_elem in H as [H|[sym ->]]; [|simpl; eauto].
    apply first_recomp_Some in H as (p & Hp & _). congruence.
Qed.

Lemma print_by_original_stack_split ps w :
  exists lines,
    Forall2 (fun o e => original_line ps o = Some e)
            (sorted (all_orig_offsets ps)) lines /\
    print_by_original_stack ps w =
    Some (HeaderOriginal :: lines,
          flag_not_bijective
            (existsb (original_ambiguous ps) (sorted (all_orig_offsets ps))) w).
Proof.
  destruct (by_original_loop_split ps (sorted (all_orig_offsets ps)) w)
    as (lines & HF & HL).
  { intros o Ho. apply original_line_Some, sorted_elem, Ho. }
  exists lines. split; [exact HF|].
  unfold print_by_original_stack. rewrite HL. reflexivity.
Qed.

Lemma print_by_recomp_stack_split ps syms w :
  exists lines,
    Forall2 (fun o e => recomp_line ps syms o = Some e)
            (sorted (all_recomp_offsets ps syms)) lines /\
    print_by_recomp_stack ps syms w =
    Some (HeaderRecomp :: lines,
          flag_not_bijective
            (existsb (recomp_ambiguous ps syms) (sorted (all_recomp_offsets ps syms))) w).
Proof.
  destruct (by_recomp_loop_split ps syms (sorted (all_recomp_offsets ps syms)) w)
    as (lines & HF & HL).
  { intros o Ho. apply recomp_line_Some, sorted_elem, Ho. }
  exists lines. split; [exact HF|].
  unfold print_by_recomp_stack. rewrite HL. reflexivity.
Qed.

End Views.

(** ** Aligned regions *)

(** C2. Every pair produced from an aligned ([both]) region has an
    original side equal to its recomp side, register and offset (and the
    symbol, which is absent on both): the one instruction text of the line
    is read once and paired with a copy of the reference.  The region
    leaves the flags as they are. *)
Lemma aligned_region_Forall both w :
  Forall (fun q => orig q = recomp q) (fst (analyze_diff (MatchingBlock both) w)).
Proof. apply analyze_both_Forall; [reflexivity|constructor]. Qed.

(** C2. Every pair produced from an aligned ([both]) region has an
    original side equal to its recomp side, register and offset (and the
    symbol, which is absent on both): the one instruction text of the line
    is read once and paired with a copy of the reference.  The region
    leaves the flags as they are. *)
Theorem aligned_pairs_have_equal_sides both w p :
  In p (fst (analyze_diff (MatchingBlock both) w)) ->
  orig p = recomp p /\
  register (orig p) = register (recomp p) /\
  offset (orig p) = offset (recomp p) /\
  snd (analyze_diff (MatchingBlock both) w) = w.
Proof.
  intros H. pose proof (aligned_region_Forall both w) as HF.
  rewrite List.Forall_forall in HF. specialize (HF p H).
  rewrite HF. auto.
Qed.

Lemma aligned_pairs_have_equal_sides_witness :
  let both := [("0x10071662", "mov eax, [ebp - 0x8]", "0x10031368");
               ("0x10071665", "mov ecx, [esp + 0x10]", "0x1003136b")] in
  let p := mkStackPair (sro "esp" 16) (sro "esp" 16) in
  In p (fst (analyze_diff (MatchingBlock both) (mkWarnings false false))) /\
  orig p = recomp p.
Proof.
  intros both p.
  assert (H : In p (fst (analyze_diff (MatchingBlock both) (mkWarnings false false)))).
  { vm_compute. right. left. reflexivity. }
  split; [exact H|].
  exact (proj1 (aligned_pairs_have_equal_sides both (mkWarnings false false) p H)).
Defined.

(** A line of a [both] region carries one instruction text for both
    sides.  For the line [mov eax, [ebp - 0x8]] the reconciler yields
    exactly one correspondence, both sides of which are [ebp - 0x8], and
    the by-original view marks it exact. *)
Theorem aligned_line_yields_exact_pair orig_addr recomp_addr w :
  let diff := MatchingBlock [(orig_addr, "mov eax, [ebp - 0x8]", recomp_addr)] in
  analyze_diff diff w = ([mkStackPair (sro "ebp" (-8)) (sro "ebp" (-8))], w) /\
  print_by_original_stack (fst (analyze_diff diff w)) w =
  Some ([HeaderOriginal;
         BijectiveMatch (Str (sro "ebp" (-8))) (Str (sro "ebp" (-8))) true], w).
Proof.
  split.
  - reflexivity.
  - destruct w as [a b]. vm_compute. reflexivity.
Qed.

(** A [both] region with the line [mov eax, [ebp - 0x8]] holds no
    correspondence with differing offsets, and no line of the by-original
    view is marked reordered. *)
Lemma aligned_line_not_reordered :
  let diff := MatchingBlock [("0x10071662", "mov eax, [ebp - 0x8]", "0x10031368")] in
  let w := mkWarnings false false in
  ~ (exists p, In p (fst (analyze_diff diff w)) /\
               offset (orig p) <> offset (recomp p)) /\
  ~ (exists lines w' l r,
       print_by_original_stack (fst (analyze_diff diff w)) w = Some (lines, w') /\
       In (BijectiveMatch l r false) lines).
Proof.
  split.
  - intros (p & Hp & Hne). apply Hne.
    pose proof (aligned_region_Forall
                  [("0x10071662", "mov eax, [ebp - 0x8]", "0x10031368")]
                  (mkWarnings false false)) as HF.
    rewrite List.Forall_forall in HF. rewrite (HF p Hp). reflexivity.
  - intros (lines & w' & l & r & Hrun & Hin).
    vm_compute in Hrun. injection Hrun as <- <-.
    destruct Hin as [H|[H|[]]]; discriminate.
Qed.

(** Two lines that differ are carried by a region with an original and
    a recomp side; with a lower-case literal on the recomp side they give
    the pair of [ebp - 0x8] with [ebp - 0xc], reported as reordered. *)
Example divergent_lines_reordered :
  let diff := MismatchingBlock [("0x10071662", "mov eax, [ebp - 0x8]")]
                               [("0x10031368", "mov eax, [ebp - 0xc]")] in
  let w := mkWarnings false false in
  analyze_diff diff w = ([mkStackPair (sro "ebp" (-8)) (sro "ebp" (-12))], w) /\
  print_by_original_stack (fst (analyze_diff diff w)) w =
  Some ([HeaderOriginal;
         BijectiveMatch (Str (sro "ebp" (-8))) (Str (sro "ebp" (-12))) false], w).
Proof. split; vm_compute; reflexivity. Qed.

(** ** Divergent regions *)

Section Divergent.

Lemma by_original_loop_lines ps offs w w' :
  option_map fst (by_original_loop ps offs w) =
  option_map fst (by_original_loop ps offs w').
Proof.
  revert w w'. induction offs as [|o offs IH]; intros w w'; [reflexivity|].
  cbn [by_original_loop]. rewrite !by_original_entry_split.
  destruct (original_line ps o) as [e|]; [|reflexivity].
  specialize (IH (flag_not_bijective (original_ambiguous ps o) w)
                 (flag_not_bijective (original_ambiguous ps o) w')).
  destruct (by_original_loop ps offs _) as [[l1 x1]|],
           (by_original_loop ps offs _) as [[l2 x2]|];
    simpl in *; congruence.
Qed.

Lemma by_recomp_loop_lines ps syms offs w w' :
  option_map fst (by_recomp_loop ps syms offs w) =
  option_map fst (by_recomp_loop ps syms offs w').
Proof.
  revert w w'. induction offs as [|o offs IH]; intros w w'; [reflexivity|].
  cbn [by_recomp_loop]. rewrite !by_recomp_entry_split.
  destruct (recomp_line ps syms o) as [e|]; [|reflexivity].
  specialize (IH (flag_not_bijective (recomp_ambiguous ps syms o) w)
                 (flag_not_bijective (recomp_ambiguous ps syms o) w')).
  destruct (by_recomp_loop ps syms offs _) as [[l1 x1]|],
           (by_recomp_loop ps syms offs _) as [[l2 x2]|];
    simpl in *; congruence.
Qed.

(** The lines of the two views do not depend on the flags. *)
Lemma print_by_original_stack_lines ps w w' :
  option_map fst (print_by_original_stack ps w) =
  option_map fst (print_by_original_stack ps w').
Proof.
  unfold print_by_original_stack.
  pose proof (by_original_loop_lines ps (sorted (all_orig_offsets ps)) w w') as H.
  destruct (by_original_loop ps _ w) as [[l1 x1]|],
           (by_original_loop ps _ w') as [[l2 x2]|];
    simpl in *; congruence.
Qed.

Lemma print_by_recomp_stack_lines ps syms w w' :
  option_map fst (print_by_recomp_stack ps syms w) =
  option_map fst (print_by_recomp_stack ps syms w').
Proof.
  unfold print_by_recomp_stack.
  pose proof (by_recomp_loop_lines ps syms (sorted (all_recomp_offsets ps syms)) w w')
    as H.
  destruct (by_recomp_loop ps syms _ w) as [[l1 x1]|],
           (by_recomp_loop ps syms _ w') as [[l2 x2]|];
    simpl in *; congruence.
Qed.

(** What the rest of the function sees of a region that returned the
    empty set with the structural flag raised. *)
Lemma failed_region_is_skipped bad :
  (forall w, analyze_diff bad w = ([], set_structural_mismatches_present w)) ->
  region_is_skipped bad.
Proof.
  intros Hbad hunks1 header ds1 ds2 hunks2 w udiff others.
  assert (Hskip : collect_stack_pairs udiff w =
                  (fst (collect_stack_pairs others w),
                   set_structural_mismatches_present
                     (snd (collect_stack_pairs others w)))).
  { apply collect_skips_region.
    - unfold region_pairs. rewrite Hbad. reflexivity.
    - unfold region_mismatch. rewrite Hbad. reflexivity. }
  rewrite Hskip. simpl. repeat split.
  - intros block d p w0 Hb Hd Hp.
    change (fst (collect_stack_pairs others w)) with
      (fst (fst (collect_stack_pairs others w),
            set_structural_mismatches_present (snd (collect_stack_pairs others w)))).
    rewrite <- Hskip. rewrite collect_stack_pairs_flat.
    apply (collect_region _ _ d).
    + apply in_concat. exists (snd block). split; [|exact Hd].
      apply in_map, Hb.
    + unfold region_pairs. rewrite (analyze_diff_split d w0) in Hp.
      rewrite analyze_diff_split. exact Hp.
  - apply print_by_original_stack_lines.
  - apply print_by_recomp_stack_lines.
Qed.

End Divergent.

(** C4. A divergent region whose two sides have different numbers of
    lines contributes no correspondence and raises the structural
    mismatch flag; it is never matched in part.  The correspondences of
    the other regions of the function are collected and reported as if
    the region were not there. *)
Theorem unequal_divergent_region_is_skipped orig_lines recomp_lines :
  length orig_lines <> length recomp_lines ->
  (forall w,
      analyze_diff (MismatchingBlock orig_lines recomp_lines) w =
      ([], set_structural_mismatches_present w) /\
      structural_mismatches_present
        (snd (analyze_diff (MismatchingBlock orig_lines recomp_lines) w)) = true) /\
  region_is_skipped (MismatchingBlock orig_lines recomp_lines).
Proof.
  intros Hlen.
  assert (H : forall w,
             analyze_diff (MismatchingBlock orig_lines recomp_lines) w =
             ([], set_structural_mismatches_present w)).
  { intros w. unfold analyze_diff.
    destruct (Nat.eqb (length orig_lines) (length recomp_lines)) eqn:E.
    - apply Nat.eqb_eq in E. contradiction.
    - reflexivity. }
  split.
  - intros w. rewrite H. auto.
  - apply failed_region_is_skipped, H.
Qed.

Lemma unequal_divergent_region_is_skipped_witness :
  let orig_lines := [("0x1000", "mov eax, [ebp - 0x4]"); ("0x1003", "push eax")] in
  let recomp_lines := [("0x2000", "mov eax, [ebp - 0x8]"); ("0x2003", "push eax");
                       ("0x2004", "nop")] in
  let aligned := MatchingBlock [("0x1010", "mov ecx, [ebp - 0xc]", "0x2010")] in
  let udiff := [] ++ ("@@ -0x1000,3 +0x2000,4 @@",
                      [aligned] ++ MismatchingBlock orig_lines recomp_lines :: []) :: [] in
  length orig_lines <> length recomp_lines /\
  fst (collect_stack_pairs udiff (mkWarnings false false)) =
    [mkStackPair (sro "ebp" (-12)) (sro "ebp" (-12))] /\
  snd (collect_stack_pairs udiff (mkWarnings false false)) = mkWarnings true false.
Proof.
  intros orig_lines recomp_lines aligned udiff.
  assert (Hlen : length orig_lines <> length recomp_lines) by (simpl; lia).
  split; [exact Hlen|].
  destruct (proj2 (unequal_divergent_region_is_skipped orig_lines recomp_lines Hlen)
              [] "@@ -0x1000,3 +0x2000,4 @@" [aligned] [] [] (mkWarnings false false))
    as (Hp & Hw & _).
  split.
  - etransitivity; [exact Hp|]. reflexivity.
  - etransitivity; [exact Hw|]. reflexivity.
Defined.

(** C5. In a divergent region with as many original as recomp lines, when
    at some position the original line has a stack reference and the recomp
    line at that position has none, the region raises the structural
    mismatch flag and contributes no correspondence, whatever it had
    matched before; the other regions of the function are analysed as if
    the region were not there. *)
Theorem unpaired_reference_aborts_region orig_lines recomp_lines i o r x :
  length orig_lines = length recomp_lines ->
  orig_lines !! i = Some o ->
  recomp_lines !! i = Some r ->
  extract_stack_offset_from_instruction (snd o) = Some x ->
  extract_stack_offset_from_instruction (snd r) = None ->
  (forall w,
      analyze_diff (MismatchingBlock orig_lines recomp_lines) w =
      ([], set_structural_mismatches_present w) /\
      structural_mismatches_present
        (snd (analyze_diff (MismatchingBlock orig_lines recomp_lines) w)) = true) /\
  region_is_skipped (MismatchingBlock orig_lines recomp_lines).
Proof.
  intros Hlen Ho Hr Hx Hn.
  assert (H : forall w,
             analyze_diff (MismatchingBlock orig_lines recomp_lines) w =
             ([], set_structural_mismatches_present w)).
  { intros w. unfold analyze_diff.
    rewrite Hlen, Nat.eqb_refl. simpl.
    rewrite (analyze_zip_break orig_lines recomp_lines [] i o r x Hlen Ho Hr Hx Hn).
    reflexivity. }
  split.
  - intros w. rewrite H. auto.
  - apply failed_region_is_skipped, H.
Qed.

Lemma unpaired_reference_aborts_region_witness :
  let orig_lines := [("0x1000", "mov eax, [ebp - 0x4]");
                     ("0x1003", "mov ecx, [ebp - 0x8]");
                     ("0x1006", "mov edx, [ebp - 0xc]")] in
  let recomp_lines := [("0x2000", "mov eax, [ebp - 0x8]");
                       ("0x2003", "mov ecx, ebx");
                       ("0x2005", "mov edx, [ebp - 0xc]")] in
  length orig_lines = length recomp_lines /\
  extract_stack_offset_from_instruction "mov ecx, [ebp - 0x8]" = Some (sro "ebp" (-8)) /\
  extract_stack_offset_from_instruction "mov ecx, ebx" = None /\
  analyze_diff (MismatchingBlock orig_lines recomp_lines) (mkWarnings false false) =
  ([], mkWarnings true false).
Proof.
  intros orig_lines recomp_lines.
  split; [reflexivity|]. split; [reflexivity|]. split; [reflexivity|].
  exact (proj1 (proj1 (unpaired_reference_aborts_region orig_lines recomp_lines 1%nat
                         ("0x1003", "mov ecx, [ebp - 0x8]") ("0x2003", "mov ecx, ebx")
                         (sro "ebp" (-8))
                         eq_refl eq_refl eq_refl eq_refl eq_refl)
                      (mkWarnings false false))).
Defined.

(** ** Symbol enrichment *)

Section Enrichment.

Lemma lookup_map {A B} (f : A -> B) (l : list A) (i : nat) :
  map f l !! i = option_map f (l !! i).
Proof.
  revert i. induction l as [|a l IH]; intros [|i]; simpl; auto.
Qed.

Lemma enrich_pair_key syms p : pair_key (enrich_pair syms p) = pair_key p.
Proof. unfold enrich_pair. destruct (String.eqb _ _); reflexivity. Qed.

Lemma enrich_pair_orig syms p : orig (enrich_pair syms p) = orig p.
Proof. unfold enrich_pair. destruct (String.eqb _ _); reflexivity. Qed.

Lemma enrich_pair_other syms p :
  register (recomp p) <> "ebp" -> enrich_pair syms p = p.
Proof.
  intros H. unfold enrich_pair.
  destruct (String.eqb _ _) eqn:E; [|reflexivity].
  apply String.eqb_eq in E. contradiction.
Qed.

Lemma enrich_pair_frame_base syms p :
  register (recomp p) = "ebp" ->
  enrich_pair syms p =
  mkStackPair (orig p)
    (mkStackRegisterOffset "ebp" (offset (recomp p)) (syms !! offset (recomp p))).
Proof. intros H. unfold enrich_pair. rewrite H. reflexivity. Qed.

End Enrichment.

(** C7. Enrichment neither creates nor removes a correspondence: the
    enriched set has, position by position, the registers and offsets of
    the set before, and untouched original sides.  A pair whose recomp
    register is not [ebp] is left as it is; an [ebp] pair gets the symbol
    the table has for its offset.  A recomp-side [esp] reference collected
    from a diff never carries a symbol. *)
Theorem enrichment_only_annotates_frame_base
    (syms : gmap Z StackSymbol) (ps : StackPairs) :
  length (enrich syms ps) = length ps /\
  map pair_key (enrich syms ps) = map pair_key ps /\
  map orig (enrich syms ps) = map orig ps /\
  (forall i p, ps !! i = Some p -> register (recomp p) <> "ebp" ->
               enrich syms ps !! i = Some p) /\
  (forall i p, ps !! i = Some p -> register (recomp p) = "ebp" ->
               enrich syms ps !! i =
               Some (mkStackPair (orig p)
                       (mkStackRegisterOffset "ebp" (offset (recomp p))
                          (syms !! offset (recomp p))))) /\
  (forall udiff w p,
      In p (enrich syms (fst (collect_stack_pairs udiff w))) ->
      register (recomp p) = "esp" -> symbol (recomp p) = None).
Proof.
  unfold enrich. repeat split.
  - apply length_map.
  - rewrite map_map. apply map_ext, enrich_pair_key.
  - rewrite map_map. apply map_ext, enrich_pair_orig.
  - intros i p Hp Hr. rewrite lookup_map, Hp. simpl.
    rewrite enrich_pair_other by exact Hr. reflexivity.
  - intros i p Hp Hr. rewrite lookup_map, Hp. simpl.
    rewrite enrich_pair_frame_base by exact Hr. reflexivity.
  - intros udiff w p Hin Hr.
    apply in_map_iff in Hin as (q & <- & Hq).
    pose proof (collected_from_extractor udiff w) as HF.
    rewrite List.Forall_forall in HF.
    destruct (HF q Hq) as (t1 & t2 & _ & E2).
    apply extract_shape in E2 as [_ Hsym].
    unfold enrich_pair in *.
    destruct (String.eqb (register (recomp q)) "ebp") eqn:E.
    + simpl in Hr. apply String.eqb_eq in E. congruence.
    + exact Hsym.
Qed.

Lemma enrichment_only_annotates_frame_base_witness :
  let syms : gmap Z StackSymbol := {[ 16 := mkStackSymbol "count" "T_INT4" ]} in
  let udiff := [("@@", [MatchingBlock [("0x1000", "mov eax, [esp + 0x10]", "0x2000");
                                       ("0x1004", "mov ecx, [ebp + 0x10]", "0x2004")]])] in
  let p := mkStackPair (sro "esp" 16) (sro "esp" 16) in
  In p (enrich syms (fst (collect_stack_pairs udiff (mkWarnings false false)))) /\
  register (recomp p) = "esp" /\
  symbol (recomp p) = None.
Proof.
  intros syms udiff p.
  assert (H : In p (enrich syms (fst (collect_stack_pairs udiff (mkWarnings false false))))).
  { vm_compute. left. reflexivity. }
  split; [exact H|]. split; [reflexivity|].
  exact (proj2 (proj2 (proj2 (proj2 (proj2
           (enrichment_only_annotates_frame_base syms []))))) udiff
           (mkWarnings false false) p H eq_refl).
Defined.

(** ** The by-recomp view and the symbols never diffed *)

Section Unseen.

Lemma Forall2_elem_l {A B} (R : A -> B -> Prop) l k x :
  Forall2 R l k -> x ∈ l -> exists y, In y k /\ R x y.
Proof.
  induction 1 as [|a b l k Hab HF IH]; intros Hx.
  - inversion Hx.
  - apply elem_of_cons in Hx as [->|Hx].
    + exists b. simpl. auto.
    + destruct (IH Hx) as (y & Hy & HR). exists y. simpl. auto.
Qed.

Lemma recomp_line_unseen ps syms k sym :
  syms !! k = Some sym ->
  (forall p, In p ps -> offset (recomp p) <> k) ->
  recomp_line ps syms k = Some (NotSeen (mkStackRegisterOffset "ebp" k (Some sym))).
Proof.
  intros Hs Hp. unfold recomp_line, by_recomp_entry.
  rewrite (first_recomp_None ps k Hp), Hs. reflexivity.
Qed.

End Unseen.

(** A symbol of the table whose offset is the offset of no recomp-side
    reference of the set, of either register, is printed by the by-recomp
    view as a line "not seen" for [ebp] at that offset, carrying the
    symbol. *)
Theorem unseen_symbol_is_reported
    (ps : StackPairs) (syms : gmap Z StackSymbol) w k sym :
  syms !! k = Some sym ->
  (forall p, In p ps -> offset (recomp p) <> k) ->
  exists lines w',
    print_by_recomp_stack ps syms w = Some (lines, w') /\
    In (NotSeen (mkStackRegisterOffset "ebp" k (Some sym))) lines.
Proof.
  intros Hs Hp.
  destruct (print_by_recomp_stack_split ps syms w) as (lines & HF & Hrun).
  eexists _, _. split; [exact Hrun|]. right.
  destruct (Forall2_elem_l _ _ _ k HF) as (e & He & Hline).
  - apply sorted_elem, all_recomp_offsets_elem. right. rewrite Hs. eauto.
  - rewrite (recomp_line_unseen ps syms k sym Hs Hp) in Hline.
    injection Hline as <-. exact He.
Qed.

Lemma unseen_symbol_is_reported_witness :
  let ps := [mkStackPair (sro "ebp" (-8)) (sro "ebp" (-8));
             mkStackPair (sro "ebp" (-4)) (sro "ebp" (-12))] in
  let syms : gmap Z StackSymbol := {[ -16 := mkStackSymbol "m_flags" "T_INT4" ]} in
  syms !! (-16) = Some (mkStackSymbol "m_flags" "T_INT4") /\
  exists lines w',
    print_by_recomp_stack ps syms (mkWarnings false false) = Some (lines, w') /\
    In (NotSeen (mkStackRegisterOffset "ebp" (-16)
                   (Some (mkStackSymbol "m_flags" "T_INT4")))) lines.
Proof.
  intros ps syms. split; [reflexivity|].
  apply (unseen_symbol_is_reported ps syms (mkWarnings false false) (-16)
           (mkStackSymbol "m_flags" "T_INT4")).
  - reflexivity.
  - intros p [<-|[<-|[]]]; simpl; lia.
Defined.

(** ** Running the reporter again *)

Section Idempotence.

Lemma flag_not_bijective_idem b w :
  flag_not_bijective b (flag_not_bijective b w) = flag_not_bijective b w.
Proof. destruct b; reflexivity. Qed.

Lemma flag_not_bijective_structural b w :
  structural_mismatches_present (flag_not_bijective b w) =
  structural_mismatches_present w.
Proof. destruct b; reflexivity. Qed.

Lemma flag_not_bijective_monotone b w :
  error_map_not_bijective w = true ->
  error_map_not_bijective (flag_not_bijective b w) = true.
Proof. destruct b; auto. Qed.

Lemma Forall2_lines {A B} (f : A -> option B) l k k' :
  Forall2 (fun x y => f x = Some y) l k ->
  Forall2 (fun x y => f x = Some y) l k' -> k = k'.
Proof.
  intros H. revert k'.
  induction H as [|a b l k Hab HF IH]; intros k' H'; inversion H'; subst.
  - reflexivity.
  - f_equal; [congruence|apply IH; assumption].
Qed.

(** A view run again from the flags it left prints the same lines and
    leaves the same flags. *)
Lemma print_by_original_stack_again ps w :
  exists out w1,
    print_by_original_stack ps w = Some (out, w1) /\
    print_by_original_stack ps w1 = Some (out, w1) /\
    exists b, w1 = flag_not_bijective b w.
Proof.
  destruct (print_by_original_stack_split ps w) as (lines & HF & Hrun).
  eexists _, _. split; [exact Hrun|].
  destruct (print_by_original_stack_split ps
              (flag_not_bijective
                 (existsb (original_ambiguous ps) (sorted (all_orig_offsets ps))) w))
    as (lines' & HF' & Hrun').
  rewrite Hrun', flag_not_bijective_idem.
  assert (E : lines' = lines).
  { apply (Forall2_lines _ _ _ _ HF' HF). }
  rewrite E. eauto.
Qed.

Lemma print_by_recomp_stack_again ps syms w :
  exists out w1,
    print_by_recomp_stack ps syms w = Some (out, w1) /\
    print_by_recomp_stack ps syms w1 = Some (out, w1) /\
    exists b, w1 = flag_not_bijective b w.
Proof.
  destruct (print_by_recomp_stack_split ps syms w) as (lines & HF & Hrun).
  eexists _, _. split; [exact Hrun|].
  destruct (print_by_recomp_stack_split ps syms
              (flag_not_bijective
                 (existsb (recomp_ambiguous ps syms)
                    (sorted (all_recomp_offsets ps syms))) w))
    as (lines' & HF' & Hrun').
  rewrite Hrun', flag_not_bijective_idem.
  assert (E : lines' = lines).
  { apply (Forall2_lines _ _ _ _ HF' HF). }
  rewrite E. eauto.
Qed.

(** A view run from flags that already hold what it raises changes
    nothing of them. *)
Lemma print_by_original_stack_settled ps w b out w1 :
  print_by_original_stack ps w = Some (out, w1) ->
  print_by_original_stack ps (flag_not_bijective b w1) =
  Some (out, flag_not_bijective b w1).
Proof.
  intros Hrun.
  destruct (print_by_original_stack_split ps w) as (lines & HF & Hrun0).
  destruct (print_by_original_stack_split ps (flag_not_bijective b w1))
    as (lines' & HF' & Hrun').
  rewrite Hrun in Hrun0. injection Hrun0 as -> ->.
  rewrite Hrun'.
  assert (E : lines' = lines).
  { apply (Forall2_lines _ _ _ _ HF' HF). }
  rewrite E. do 2 f_equal.
  destruct (existsb _ _), b; reflexivity.
Qed.

(** Apart from a symbol location that does not decode, nothing stops
    [compare_function_stacks]: the collection is a total function and the
    views always return. *)
Lemma compare_function_stacks_returns order udiff fn_symbol syms :
  build_stack_symbols (stack_symbols_of fn_symbol) ∅ = Some syms ->
  exists out w, compare_function_stacks order udiff fn_symbol = Some (out, w).
Proof.
  intros Hsyms. unfold compare_function_stacks.
  destruct (collect_stack_pairs udiff (mkWarnings false false)) as [collected w0].
  rewrite Hsyms. unfold report.
  destruct (print_by_original_stack_again (enrich syms (order collected)) w0)
    as (o1 & w1 & -> & _).
  destruct (print_by_recomp_stack_again (enrich syms (order collected)) syms w1)
    as (o2 & w2 & -> & _).
  eauto.
Qed.

End Idempotence.

(** C9. The reporter (the two views and the footer) always produces its
    output, and run a second time on the same set and symbol table, with
    the flags the first run left, it prints the same lines and leaves the
    same flags.  The set and the table are only read.  The flags grow:
    the structural flag is kept and the not-bijective flag, once set,
    stays set.  Each view alone has the same property. *)
Theorem report_is_idempotent (ps : StackPairs) (syms : gmap Z StackSymbol) w :
  (exists out w1,
      report ps syms w = Some (out, w1) /\
      report ps syms w1 = Some (out, w1) /\
      structural_mismatches_present w1 = structural_mismatches_present w /\
      (error_map_not_bijective w = true -> error_map_not_bijective w1 = true)) /\
  (exists out w1,
      print_by_original_stack ps w = Some (out, w1) /\
      print_by_original_stack ps w1 = Some (out, w1)) /\
  (exists out w1,
      print_by_recomp_stack ps syms w = Some (out, w1) /\
      print_by_recomp_stack ps syms w1 = Some (out, w1)).
Proof.
  split; [|split].
  - destruct (print_by_original_stack_again ps w) as (o1 & w1 & H1 & _ & b1 & E1).
    destruct (print_by_recomp_stack_again ps syms w1) as (o2 & w2 & H2 & H2' & b2 & E2).
    exists (o1 ++ o2 ++ print_footer w2), w2.
    unfold report. rewrite H1, H2.
    split; [reflexivity|].
    rewrite E2, (print_by_original_stack_settled ps w b2 o1 w1 H1), <- E2, H2'.
    split; [reflexivity|].
    rewrite E2, E1, !flag_not_bijective_structural.
    split; [reflexivity|].
    intros H. apply flag_not_bijective_monotone, flag_not_bijective_monotone, H.
  - destruct (print_by_original_stack_again ps w) as (o1 & w1 & H1 & H1' & _). eauto.
  - destruct (print_by_recomp_stack_again ps syms w) as (o1 & w1 & H1 & H1' & _). eauto.
Qed.

Lemma report_is_idempotent_example :
  let ps := [mkStackPair (sro "ebp" (-4)) (sro "ebp" (-4));
             mkStackPair (sro "ebp" (-4)) (sro "ebp" (-8))] in
  let out := [HeaderOriginal;
              NonBijectiveMatch (Str (sro "ebp" (-4)))
                (ListStr [sro "ebp" (-4); sro "ebp" (-8)]);
              HeaderRecomp;
              BijectiveMatch (Str (sro "ebp" (-4))) (Str (sro "ebp" (-8))) false;
              BijectiveMatch (Str (sro "ebp" (-4))) (Str (sro "ebp" (-4))) true;
              Legend; ErrorNotBijective] in
  report ps ∅ (mkWarnings false false) = Some (out, mkWarnings false true) /\
  report ps ∅ (mkWarnings false true) = Some (out, mkWarnings false true).
Proof. split; vm_compute; reflexivity. Qed.

(** ** One line per integer offset *)

Section ByOffset.

Lemma head_filter_inv {A B} (f : A -> B) (t : A -> bool) l y :
  head (map f (List.filter t l)) = Some y ->
  exists x, In x l /\ t x = true /\ y = f x.
Proof.
  induction l as [|a l IH]; simpl; [discriminate|].
  destruct (t a) eqn:E; simpl.
  - intros [= <-]. exists a. auto.
  - intros H. destruct (IH H) as (x & Hx & Ht & Hy). exists x. auto.
Qed.

Lemma first_orig_inv ps o r :
  first_orig ps o = Some r -> offset r = o /\ exists p, In p ps /\ orig p = r.
Proof.
  intros H. apply head_filter_inv in H as (x & Hx & Ht & ->).
  apply Z.eqb_eq in Ht. eauto.
Qed.

Lemma first_recomp_inv ps o r :
  first_recomp ps o = Some r -> offset r = o /\ exists p, In p ps /\ recomp p = r.
Proof.
  intros H. apply head_filter_inv in H as (x & Hx & Ht & ->).
  apply Z.eqb_eq in Ht. eauto.
Qed.

(** The line of an original offset: the first reference with that
    offset on the left, the recomp sides of the pairs equal to it on
    the right. *)
Lemma original_line_shape ps o e :
  original_line ps o = Some e ->
  exists r, first_orig ps o = Some r /\
            line_left e = [r] /\ line_right e = recomps_of ps r.
Proof.
  unfold original_line, by_original_entry.
  destruct (first_orig ps o) as [r|]; [|discriminate].
  intros H. exists r. split; [reflexivity|].
  destruct (recomps_of ps r) as [|a [|b l]]; injection H as <-; auto.
Qed.

(** The line of a recomp offset that occurs in the set. *)
Lemma recomp_line_shape ps syms o e r :
  recomp_line ps syms o = Some e -> first_recomp ps o = Some r ->
  line_right e = [r] /\ line_left e = origs_of ps r.
Proof.
  unfold recomp_line, by_recomp_entry. intros H E. rewrite E in H.
  destruct (origs_of ps r) as [|a [|b l]]; injection H as <-; auto.
Qed.

Lemma left_at_original_line ps o e o' :
  original_line ps o = Some e -> left_at o' e = Z.eqb o o'.
Proof.
  intros H. apply original_line_shape in H as (r & Hr & Hl & _).
  apply first_orig_inv in Hr as [<- _].
  unfold left_at. rewrite Hl. simpl. apply orb_false_r.
Qed.

Lemma right_at_recomp_line ps syms o e o' :
  recomp_line ps syms o = Some e -> right_at o' e = Z.eqb o o'.
Proof.
  intros H. destruct (first_recomp ps o) as [r|] eqn:E.
  - destruct (recomp_line_shape ps syms o e r H E) as [Hr _].
    apply first_recomp_inv in E as [<- _].
    unfold right_at. rewrite Hr. simpl. apply orb_false_r.
  - unfold recomp_line, by_recomp_entry in H. rewrite E in H.
    destruct (syms !! o); [|discriminate]. injection H as <-.
    unfold right_at. simpl. apply orb_false_r.
Qed.

Lemma no_line_for_absent_offset (f : Z -> option Output)
    (test : Z -> Output -> bool) offs lines o :
  (forall a e a', f a = Some e -> test a' e = Z.eqb a a') ->
  Forall2 (fun a e => f a = Some e) offs lines ->
  o ∉ offs -> List.filter (test o) lines = [].
Proof.
  intros Ht HF. induction HF as [|a e offs lines Hae HF IH]; intros Ho.
  - reflexivity.
  - simpl. rewrite (Ht _ _ o Hae).
    destruct (Z.eqb_spec a o) as [->|Hne].
    + exfalso. apply Ho. left.
    + apply IH. intros H. apply Ho. right. exact H.
Qed.

(** In a list of lines printed for distinct offsets, exactly one is
    about a given offset of the list. *)
Lemma one_line_per_offset (f : Z -> option Output) (test : Z -> Output -> bool)
    offs lines o :
  (forall a e a', f a = Some e -> test a' e = Z.eqb a a') ->
  Forall2 (fun a e => f a = Some e) offs lines ->
  NoDup offs -> o ∈ offs ->
  exists e, f o = Some e /\ List.filter (test o) lines = [e].
Proof.
  intros Ht HF. induction HF as [|a e offs lines Hae HF IH]; intros Hnd Ho.
  - inversion Ho.
  - apply NoDup_cons in Hnd as [Hna Hnd]. simpl. rewrite (Ht _ _ o Hae).
    apply elem_of_cons in Ho as [->|Ho].
    + exists e. split; [exact Hae|]. rewrite Z.eqb_refl. f_equal.
      apply (no_line_for_absent_offset f test offs lines a Ht HF Hna).
    + destruct (Z.eqb_spec a o) as [->|Hne]; [contradiction|].
      apply IH; assumption.
Qed.

Lemma sro_eq_registers x y r :
  register x <> register y -> sro_eq x r = false \/ sro_eq y r = false.
Proof.
  intros Hne.
  destruct (sro_eq x r) eqn:Ex; [|auto]. destruct (sro_eq y r) eqn:Ey; [|auto].
  apply sro_eq_spec in Ex as [Ex _]. apply sro_eq_spec in Ey as [Ey _].
  congruence.
Qed.

End ByOffset.

(** C10. Both views have one line per integer offset, whatever the
    register.  When two pairs of the set have original sides with the
    same offset and different registers, the by-original view prints
    exactly one line about that offset; its left side is the first
    original reference with that offset in the iteration order of the set,
    its right side lists the recomp sides of the pairs whose original
    side equals that reference and of no other pair, and at least one of
    the two pairs is not among them.  The by-recomp view does the same
    with the recomp sides. *)
Theorem views_print_one_line_per_offset
    (ps : StackPairs) (syms : gmap Z StackSymbol) w p q :
  In p ps -> In q ps ->
  (offset (orig p) = offset (orig q) ->
   register (orig p) <> register (orig q) ->
   exists lines w' e r,
     print_by_original_stack ps w = Some (HeaderOriginal :: lines, w') /\
     List.filter (left_at (offset (orig p))) lines = [e] /\
     first_orig ps (offset (orig p)) = Some r /\
     (exists x, In x ps /\ orig x = r /\ offset r = offset (orig p)) /\
     line_left e = [r] /\
     line_right e = map recomp (List.filter (fun x => sro_eq (orig x) r) ps) /\
     (sro_eq (orig p) r = false \/ sro_eq (orig q) r = false)) /\
  (offset (recomp p) = offset (recomp q) ->
   register (recomp p) <> register (recomp q) ->
   exists lines w' e r,
     print_by_recomp_stack ps syms w = Some (HeaderRecomp :: lines, w') /\
     List.filter (right_at (offset (recomp p))) lines = [e] /\
     first_recomp ps (offset (recomp p)) = Some r /\
     (exists x, In x ps /\ recomp x = r /\ offset r = offset (recomp p)) /\
     line_right e = [r] /\
     line_left e = map orig (List.filter (fun x => sro_eq (recomp x) r) ps) /\
     (sro_eq (recomp p) r = false \/ sro_eq (recomp q) r = false)).
Proof.
  intros Hp Hq. split; intros Ho Hr.
  - destruct (print_by_original_stack_split ps w) as (lines & HF & Hrun).
    destruct (one_line_per_offset (original_line ps) left_at _ _ (offset (orig p))
                (fun a e a' H => left_at_original_line ps a e a' H) HF
                (sorted_NoDup _)) as (e & He & Hone).
    { apply sorted_elem, all_orig_offsets_elem. eauto. }
    destruct (original_line_shape ps _ e He) as (r & Hfirst & Hl & Hright).
    destruct (first_orig_inv ps _ r Hfirst) as (Hoff & x & Hx & Hxr).
    eexists lines, _, e, r.
    split; [exact Hrun|]. split; [exact Hone|]. split; [exact Hfirst|].
    split; [exists x; auto|]. split; [exact Hl|]. split; [exact Hright|].
    apply sro_eq_registers, Hr.
  - destruct (print_by_recomp_stack_split ps syms w) as (lines & HF & Hrun).
    destruct (one_line_per_offset (recomp_line ps syms) right_at _ _ (offset (recomp p))
                (fun a e a' H => right_at_recomp_line ps syms a e a' H) HF
                (sorted_NoDup _)) as (e & He & Hone).
    { apply sorted_elem, all_recomp_offsets_elem. left. eauto. }
    destruct (first_recomp_Some ps (offset (recomp p))) as (x & Hfirst & _ & _);
      [eauto|].
    destruct (recomp_line_shape ps syms _ e _ He Hfirst) as [Hright Hleft].
    destruct (first_recomp_inv ps _ _ Hfirst) as (Hoff & y & Hy & Hyr).
    eexists lines, _, e, (recomp x).
    split; [exact Hrun|]. split; [exact Hone|]. split; [exact Hfirst|].
    split; [exists y; auto|]. split; [exact Hright|]. split; [exact Hleft|].
    apply sro_eq_registers, Hr.
Qed.

Lemma views_print_one_line_per_offset_witness :
  let p := mkStackPair (sro "esp" (-4)) (sro "esp" (-4)) in
  let q := mkStackPair (sro "ebp" (-4)) (sro "ebp" (-4)) in
  let ps := [p; q] in
  In p ps /\ In q ps /\
  offset (orig p) = offset (orig q) /\
  register (orig p) <> register (orig q) /\
  exists lines w' e r,
    print_by_original_stack ps (mkWarnings false false) =
      Some (HeaderOriginal :: lines, w') /\
    List.filter (left_at (offset (orig p))) lines = [e] /\
    first_orig ps (offset (orig p)) = Some r /\
    (exists x, In x ps /\ orig x = r /\ offset r = offset (orig p)) /\
    line_left e = [r] /\
    line_right e = map recomp (List.filter (fun x => sro_eq (orig x) r) ps) /\
    (sro_eq (orig p) r = false \/ sro_eq (orig q) r = false).
Proof.
  intros p q ps.
  assert (Hp : In p ps) by (left; reflexivity).
  assert (Hq : In q ps) by (right; left; reflexivity).
  assert (Hr : register (orig p) <> register (orig q)) by discriminate.
  repeat (split; [assumption || reflexivity|]).
  exact (proj1 (views_print_one_line_per_offset ps ∅ (mkWarnings false false) p q Hp Hq)
           eq_refl Hr).
Defined.

(** Which reference stands for the offset depends on the order in which
    the set is iterated. *)
Example line_depends_on_iteration_order :
  let a := mkStackPair (sro "esp" (-4)) (sro "esp" (-4)) in
  let b := mkStackPair (sro "ebp" (-4)) (sro "ebp" (-8)) in
  let w := mkWarnings false false in
  print_by_original_stack [a; b] w =
    Some ([HeaderOriginal;
           BijectiveMatch (Str (sro "esp" (-4))) (Str (sro "esp" (-4))) true], w) /\
  print_by_original_stack [b; a] w =
    Some ([HeaderOriginal;
           BijectiveMatch (Str (sro "ebp" (-4))) (Str (sro "ebp" (-8))) false], w) /\
  print_by_recomp_stack [a; mkStackPair (sro "ebp" (-8)) (sro "ebp" (-4))] ∅ w =
    Some ([HeaderRecomp;
           BijectiveMatch (Str (sro "esp" (-4))) (Str (sro "esp" (-4))) true], w).
Proof. repeat split; vm_compute; reflexivity. Qed.

(** ** Ambiguous original offsets *)

Section Ambiguity.

Lemma recomps_of_In ps r x :
  In x ps -> sro_eq (orig x) r = true -> In (recomp x) (recomps_of ps r).
Proof.
  intros Hx Hr. unfold recomps_of. apply in_map, filter_In. auto.
Qed.

Lemma sro_eq_distinct x y : sro_eq x y = false -> x <> y.
Proof. intros H ->. rewrite sro_eq_refl in H. discriminate. Qed.

(** When no reference of the other register shares the offset, an
    original reference paired with two distinct recomp references is
    reported as not bijective with all its candidates, and the flag is
    raised. *)
Lemma ambiguity_reported_without_register_clash ps w p q :
  In p ps -> In q ps ->
  sro_eq (orig p) (orig q) = true ->
  sro_eq (recomp p) (recomp q) = false ->
  (forall x, In x ps -> offset (orig x) = offset (orig p) ->
             register (orig x) = register (orig p)) ->
  exists lines w' r,
    print_by_original_stack ps w = Some (lines, w') /\
    error_map_not_bijective w' = true /\
    sro_eq r (orig p) = true /\
    In (NonBijectiveMatch (Str r) (ListStr (recomps_of ps r))) lines /\
    In (recomp p) (recomps_of ps r) /\ In (recomp q) (recomps_of ps r).
Proof.
  intros Hp Hq Hpq Hne Hreg.
  destruct (first_orig_Some ps (offset (orig p))) as (x & Hfirst & Hx & Hox);
    [eauto|].
  assert (Hxp : sro_eq (orig x) (orig p) = true).
  { apply sro_eq_spec. split; [apply Hreg; assumption|exact Hox]. }
  assert (Hinp : In (recomp p) (recomps_of ps (orig x))).
  { apply recomps_of_In; [exact Hp|].
    apply sro_eq_spec in Hxp as [? ?]. apply sro_eq_spec. auto. }
  assert (Hinq : In (recomp q) (recomps_of ps (orig x))).
  { apply recomps_of_In; [exact Hq|].
    apply sro_eq_spec in Hxp as [? ?]. apply sro_eq_spec in Hpq as [? ?].
    apply sro_eq_spec. split; congruence. }
  assert (Hentry : by_original_entry ps (offset (orig p)) (mkWarnings false false) =
                   Some (NonBijectiveMatch (Str (orig x))
                           (ListStr (recomps_of ps (orig x))),
                         mkWarnings false true)).
  { unfold by_original_entry. rewrite Hfirst.
    destruct (recomps_of ps (orig x)) as [|a [|b l]]; try reflexivity.
    exfalso. apply (sro_eq_distinct _ _ Hne).
    destruct Hinp as [<-|[]], Hinq as [<-|[]]. reflexivity. }
  destruct (print_by_original_stack_split ps w) as (lines & HF & Hrun).
  assert (Hel : offset (orig p) ∈ sorted (all_orig_offsets ps)).
  { apply sorted_elem, all_orig_offsets_elem. eauto. }
  eexists _, _, (orig x). split; [exact Hrun|]. repeat split; try assumption.
  - assert (Hany : existsb (original_ambiguous ps) (sorted (all_orig_offsets ps)) = true).
    { apply existsb_exists. exists (offset (orig p)).
      split; [apply list_elem_of_In, Hel|].
      unfold original_ambiguous. rewrite Hentry. reflexivity. }
    rewrite Hany. reflexivity.
  - right. destruct (Forall2_elem_l _ _ _ _ HF Hel) as (e & He & Hline).
    unfold original_line in Hline. rewrite Hentry in Hline.
    injection Hline as <-. exact He.
Qed.

End Ambiguity.

(** C3, evaluated where the code departs from it.  The set holds
    [ebp - 0x4] paired with [ebp - 0x4] and with [ebp - 0x8], and also
    [esp - 0x4] paired with itself.  When the iteration reaches the [esp]
    pair first, the by-original view prints the single line of
    [esp - 0x4] for offset -4 and leaves the flag down; the by-recomp
    view does not raise it either, and the footer carries no error.  With
    the [ebp] pairs first, the same set is reported as not bijective. *)
Theorem ambiguity_hidden_by_register_clash :
  let esp_pair := mkStackPair (sro "esp" (-4)) (sro "esp" (-4)) in
  let same := mkStackPair (sro "ebp" (-4)) (sro "ebp" (-4)) in
  let moved := mkStackPair (sro "ebp" (-4)) (sro "ebp" (-8)) in
  let w := mkWarnings false false in
  print_by_original_stack [esp_pair; same; moved] w =
    Some ([HeaderOriginal;
           BijectiveMatch (Str (sro "esp" (-4))) (Str (sro "esp" (-4))) true], w) /\
  report [esp_pair; same; moved] ∅ w =
    Some ([HeaderOriginal;
           BijectiveMatch (Str (sro "esp" (-4))) (Str (sro "esp" (-4))) true;
           HeaderRecomp;
           BijectiveMatch (Str (sro "ebp" (-4))) (Str (sro "ebp" (-8))) false;
           BijectiveMatch (Str (sro "esp" (-4))) (Str (sro "esp" (-4))) true;
           Legend], w) /\
  print_by_original_stack [same; moved; esp_pair] w =
    Some ([HeaderOriginal;
           NonBijectiveMatch (Str (sro "ebp" (-4)))
             (ListStr [sro "ebp" (-4); sro "ebp" (-8)])],
          mkWarnings false true) /\
  compare_function_stacks (fun collected => collected)
    [("@@ -0x1000,3 +0x2000,3 @@",
      [MatchingBlock [("0x1000", "lea eax, [esp - 0x4]", "0x2000");
                      ("0x1004", "mov ecx, [ebp - 0x4]", "0x2004")];
       MismatchingBlock [("0x1007", "mov edx, [ebp - 0x4]")]
                        [("0x2007", "mov edx, [ebp - 0x8]")]])]
    (mkSymbolsEntry []) =
    Some ([HeaderOriginal;
           BijectiveMatch (Str (sro "esp" (-4))) (Str (sro "esp" (-4))) true;
           HeaderRecomp;
           BijectiveMatch (Str (sro "ebp" (-4))) (Str (sro "ebp" (-8))) false;
           BijectiveMatch (Str (sro "esp" (-4))) (Str (sro "esp" (-4))) true;
           Legend], w).
Proof. repeat split; vm_compute; reflexivity. Qed.

(** * Further properties of the code *)

(** ** What the extractor returns *)

Section ExtractorReadings.

Lemma char_between_spec lo hi c :
  char_between lo hi c = true ->
  (nat_of_ascii lo <= nat_of_ascii c <= nat_of_ascii hi)%nat.
Proof.
  unfold char_between. intros H. apply andb_true_iff in H as [H1 H2].
  apply Nat.leb_le in H1, H2. auto.
Qed.

Lemma hex_digit_value_nonneg c d : hex_digit_value c = Some d -> 0 <= d < 16.
Proof.
  unfold hex_digit_value.
  destruct (char_between "0" "9" c) eqn:E1.
  { intros [= <-]. apply char_between_spec in E1.
    change (nat_of_ascii "0") with 48%nat in E1.
    change (nat_of_ascii "9") with 57%nat in E1. lia. }
  destruct (char_between "a" "f" c) eqn:E2.
  { intros [= <-]. apply char_between_spec in E2.
    change (nat_of_ascii "a") with 97%nat in E2.
    change (nat_of_ascii "f") with 102%nat in E2. lia. }
  destruct (char_between "A" "F" c) eqn:E3; [|discriminate].
  intros [= <-]. apply char_between_spec in E3.
  change (nat_of_ascii "A") with 65%nat in E3.
  change (nat_of_ascii "F") with 70%nat in E3. lia.
Qed.

Lemma hex_digits_value_nonneg d acc v :
  0 <= acc -> hex_digits_value acc d = Some v -> 0 <= v.
Proof.
  revert acc. induction d as [|c d IH]; intros acc Hacc; cbn [hex_digits_value].
  - intros [= <-]. exact Hacc.
  - destruct (hex_digit_value c) as [x|] eqn:E; [|discriminate].
    apply hex_digit_value_nonneg in E. apply IH. lia.
Qed.

Lemma match_here_sign s m :
  match_here s = Some m ->
  exists sg v,
    group_sign m = String sg EmptyString /\ is_sign sg = true /\ 0 <= v /\
    int_base16 (String.append (group_sign m) (group_offset m)) =
    Some (if Ascii.eqb sg "+" then v else - v).
Proof.
  unfold match_here.
  destruct s as [|c1 [|r [|c3 [|w1 [|sg [|w2 rest]]]]]]; try discriminate.
  destruct (Ascii.eqb c1 "e" && is_s_or_b r && Ascii.eqb c3 "p" && is_space w1)%bool;
    simpl; try discriminate.
  destruct (is_sign sg) eqn:Hsg; simpl; try discriminate.
  destruct (is_space w2); simpl; try discriminate.
  destruct (match_offset rest) as [off|] eqn:Hoff; try discriminate.
  intros [= <-].
  apply match_offset_parses in Hoff as (d & v & Hs & Hne & Hv).
  exists sg, v. split; [reflexivity|]. split; [exact Hsg|].
  split; [apply (hex_digits_value_nonneg d 0 v); [lia|exact Hv]|].
  exact (int_base16_signed sg off d v Hsg Hs Hne Hv).
Qed.

Lemma all_hex_no_prefix d : all_hex d = true -> strip_hex_prefix d = d.
Proof.
  intros H. destruct d as [|o1 [|o2 d']]; try reflexivity.
  cbn [all_hex] in H. apply andb_true_iff in H as [_ H].
  apply andb_true_iff in H as [H _]. unfold strip_hex_prefix.
  destruct (Ascii.eqb o2 "x") eqn:Hx.
  { apply Ascii.eqb_eq in Hx. subst o2. discriminate. }
  destruct (Ascii.eqb o2 "X") eqn:HX.
  { apply Ascii.eqb_eq in HX. subst o2. discriminate. }
  rewrite andb_false_r. reflexivity.
Qed.

(** A literal without prefix: the optional [0x] finds nothing to take. *)
Lemma match_offset_plain d post :
  d <> EmptyString -> all_hex d = true -> not_followed_by_hex post = true ->
  String.prefix "x" post = false ->
  match_offset (String.append d post) = Some d.
Proof.
  intros Hne Hall Hpost Hx.
  pose proof (hex_plus_run d post Hne Hall Hpost) as Hrun.
  unfold match_offset. rewrite Hrun.
  destruct d as [|c1 d']; [congruence|]. rewrite append_String.
  destruct d' as [|c2 d''].
  - rewrite append_empty. destruct post as [|p post']; [reflexivity|].
    destruct (Ascii.eqb c1 "0" && Ascii.eqb p "x")%bool eqn:E; [|reflexivity].
    apply andb_true_iff in E as [_ E]. apply Ascii.eqb_eq in E. subst p.
    simpl in Hx. destruct post'; discriminate.
  - rewrite append_String.
    cbn [all_hex] in Hall. apply andb_true_iff in Hall as [_ Hall].
    apply andb_true_iff in Hall as [H2 _].
    destruct (Ascii.eqb c2 "x") eqn:E.
    { apply Ascii.eqb_eq in E. subst c2. discriminate. }
    rewrite andb_false_r. reflexivity.
Qed.

Lemma match_here_plain_literal r sg d post :
  is_s_or_b r = true -> is_sign sg = true ->
  d <> EmptyString -> all_hex d = true -> not_followed_by_hex post = true ->
  String.prefix "x" post = false ->
  match_here
    (String "e" (String r (String "p" (String " " (String sg (String " "
       (String.append d post)))))))
  = Some (mkMatch (String "e" (String r (String "p" EmptyString)))
                  (String sg EmptyString) d).
Proof.
  intros Hr Hsg Hne Hall Hpost Hx. unfold match_here.
  rewrite Hr, Hsg, (match_offset_plain d post Hne Hall Hpost Hx).
  reflexivity.
Qed.

(** A prefix [0x] that no digit of [[0-9a-f]] follows: the prefix is given
    up and the literal is its leading [0]. *)
Lemma match_here_bare_prefix r sg post :
  is_s_or_b r = true -> is_sign sg = true -> not_followed_by_hex post = true ->
  match_here
    (String "e" (String r (String "p" (String " " (String sg (String " "
       (String "0" (String "x" post))))))))
  = Some (mkMatch (String "e" (String r (String "p" EmptyString)))
                  (String sg EmptyString) "0").
Proof.
  intros Hr Hsg Hpost. unfold match_here, match_offset.
  rewrite Hr, Hsg. cbn [hex_plus].
  rewrite (hex_plus_stop post Hpost). reflexivity.
Qed.

End ExtractorReadings.

(** X1. A reference returned by the extractor has the register [ebp] or
    [esp], carries no symbol, and its register occurs in the line. *)
Theorem extracted_reference_shape line x :
  extract_stack_offset_from_instruction line = Some x ->
  (register x = "ebp" \/ register x = "esp") /\
  symbol x = None /\
  contains (register x) line = true.
Proof.
  unfold extract_stack_offset_from_instruction.
  destruct (STACK_ENTRY_REGEX_search line) as [m|] eqn:E; [|discriminate].
  destruct (int_base16 _); [|discriminate].
  intros [= <-]. simpl. apply search_register in E as [Hr Hc]. auto.
Qed.

Lemma extracted_reference_shape_witness :
  extract_stack_offset_from_instruction "lea ecx, [esp + 0x1c]" = Some (sro "esp" 28) /\
  contains "esp" "lea ecx, [esp + 0x1c]" = true.
Proof.
  split; [reflexivity|].
  exact (proj2 (proj2 (extracted_reference_shape "lea ecx, [esp + 0x1c]"
                         (sro "esp" 28) eq_refl))).
Defined.

(** X2. The sign of the instruction text is the sign of the offset: a
    reference written with [+] has an offset that is not negative, one
    written with [-] an offset that is not positive. *)
Theorem extracted_offset_follows_sign line x :
  extract_stack_offset_from_instruction line = Some x ->
  exists m,
    STACK_ENTRY_REGEX_search line = Some m /\
    register x = group_register m /\
    ((group_sign m = "+" /\ 0 <= offset x) \/ (group_sign m = "-" /\ offset x <= 0)).
Proof.
  unfold extract_stack_offset_from_instruction.
  destruct (STACK_ENTRY_REGEX_search line) as [m|] eqn:E; [|discriminate].
  intros Hx. exists m. split; [reflexivity|].
  destruct (search_from_match_here _ _ E) as [t Ht].
  apply match_here_sign in Ht as (sg & v & Hsign & Hsg & Hv & Hint).
  rewrite Hint in Hx. injection Hx as <-. simpl. split; [reflexivity|].
  rewrite Hsign. unfold is_sign in Hsg.
  destruct (Ascii.eqb sg "+") eqn:Hp.
  - apply Ascii.eqb_eq in Hp. subst sg. left. auto.
  - simpl in Hsg. apply Ascii.eqb_eq in Hsg. subst sg. right. split; [reflexivity|lia].
Qed.

Lemma extracted_offset_follows_sign_witness :
  extract_stack_offset_from_instruction "mov eax, [ebp - 0x8]" = Some (sro "ebp" (-8)) /\
  exists m,
    STACK_ENTRY_REGEX_search "mov eax, [ebp - 0x8]" = Some m /\
    register (sro "ebp" (-8)) = group_register m /\
    ((group_sign m = "+" /\ 0 <= offset (sro "ebp" (-8))) \/
     (group_sign m = "-" /\ offset (sro "ebp" (-8)) <= 0)).
Proof.
  split; [reflexivity|].
  exact (extracted_offset_follows_sign "mov eax, [ebp - 0x8]" (sro "ebp" (-8)) eq_refl).
Defined.

(** X3. In a line that mentions no stack register before it, a register
    [ebp] or [esp], a sign and a literal [0x] with lower-case digits are
    read as that register with the hexadecimal value of the digits,
    negated for [-]; what follows the literal, if it does not start with a
    digit of [[0-9a-f]], plays no part: a second reference in the line is
    not read, and upper-case digits after the lower-case ones are left
    out of the value. *)
Theorem extractor_reads_first_prefixed_literal pre r sg d post v :
  mentions_stack_register pre = false ->
  is_s_or_b r = true -> is_sign sg = true ->
  d <> EmptyString -> all_hex d = true -> not_followed_by_hex post = true ->
  hex_digits_value 0 d = Some v ->
  extract_stack_offset_from_instruction
    (String.append pre
       (String "e" (String r (String "p" (String " " (String sg (String " "
          (String "0" (String "x" (String.append d post))))))))))
  = Some (mkStackRegisterOffset (String "e" (String r (String "p" EmptyString)))
            (if Ascii.eqb sg "+" then v else - v) None).
Proof. apply extract_literal_in_line. Qed.

Lemma extractor_reads_first_prefixed_literal_witness :
  extract_stack_offset_from_instruction "mov eax, [ebp - 0x1c], [esp + 0x4]"
  = Some (sro "ebp" (-28)).
Proof.
  exact (extractor_reads_first_prefixed_literal "mov eax, [" "b" "-" "1c"
           "], [esp + 0x4]" 28 eq_refl eq_refl eq_refl ltac:(discriminate)
           eq_refl eq_refl eq_refl).
Defined.

(** X4. A literal without the prefix [0x] is read in base 16 all the same:
    [ebp - 10] is offset -16. *)
Theorem extractor_reads_plain_literal_in_base_16 pre r sg d post v :
  mentions_stack_register pre = false ->
  is_s_or_b r = true -> is_sign sg = true ->
  d <> EmptyString -> all_hex d = true -> not_followed_by_hex post = true ->
  String.prefix "x" post = false ->
  hex_digits_value 0 d = Some v ->
  extract_stack_offset_from_instruction
    (String.append pre
       (String "e" (String r (String "p" (String " " (String sg (String " "
          (String.append d post))))))))
  = Some (mkStackRegisterOffset (String "e" (String r (String "p" EmptyString)))
            (if Ascii.eqb sg "+" then v else - v) None).
Proof.
  intros Hpre Hr Hsg Hne Hall Hpost Hx Hv.
  unfold extract_stack_offset_from_instruction.
  rewrite (search_behind_prefix pre _ _ Hpre
             (match_here_plain_literal r sg d post Hr Hsg Hne Hall Hpost Hx)).
  cbn [group_sign group_offset group_register].
  rewrite append_String, append_empty.
  rewrite (int_base16_signed sg d d v Hsg (all_hex_no_prefix d Hall) Hne Hv).
  reflexivity.
Qed.

Lemma extractor_reads_plain_literal_in_base_16_witness :
  extract_stack_offset_from_instruction "lea edx, [ebp - 10]" = Some (sro "ebp" (-16)).
Proof.
  exact (extractor_reads_plain_literal_in_base_16 "lea edx, [" "b" "-" "10" "]" 16
           eq_refl eq_refl eq_refl ltac:(discriminate) eq_refl eq_refl eq_refl eq_refl).
Defined.

(** X5. When the prefix [0x] is followed by a character outside [[0-9a-f]]
    (an upper-case digit, for one), the reference is read with offset 0,
    whatever the digits are. *)
Theorem extractor_reads_bare_prefix_as_zero pre r sg post :
  mentions_stack_register pre = false ->
  is_s_or_b r = true -> is_sign sg = true -> not_followed_by_hex post = true ->
  extract_stack_offset_from_instruction
    (String.append pre
       (String "e" (String r (String "p" (String " " (String sg (String " "
          (String "0" (String "x" post)))))))))
  = Some (mkStackRegisterOffset (String "e" (String r (String "p" EmptyString))) 0 None).
Proof.
  intros Hpre Hr Hsg Hpost.
  unfold extract_stack_offset_from_instruction.
  rewrite (search_behind_prefix pre _ _ Hpre (match_here_bare_prefix r sg post Hr Hsg Hpost)).
  cbn [group_sign group_offset group_register].
  rewrite append_String, append_empty.
  rewrite (int_base16_signed sg "0" "0" 0 Hsg eq_refl ltac:(discriminate) eq_refl).
  destruct (Ascii.eqb sg "+"); reflexivity.
Qed.

Lemma extractor_reads_bare_prefix_as_zero_witness :
  extract_stack_offset_from_instruction "mov eax, [ebp - 0xC]" = Some (sro "ebp" 0).
Proof.
  exact (extractor_reads_bare_prefix_as_zero "mov eax, [" "b" "-" "C]"
           eq_refl eq_refl eq_refl eq_refl).
Defined.

(** ** What a region contributes *)

Section Regions.

Lemma combine_lookup {A B} (l : list A) (k : list B) i a b :
  combine l k !! i = Some (a, b) <-> l !! i = Some a /\ k !! i = Some b.
Proof.
  revert k i. induction l as [|x l IH]; intros [|y k] [|i]; simpl;
    try (split; [discriminate|intros [? ?]; discriminate]).
  - split; [intros [= -> ->]; auto|intros [[= ->] [= ->]]; reflexivity].
  - apply IH.
Qed.

(** The loop over the paired lines, when it is not left early: the
    pairs added are those of the positions where both lines have a
    reference. *)
Lemma analyze_zip_positions lines acc :
  (forall i o r, lines !! i = Some (o, r) ->
                 is_Some (extract_stack_offset_from_instruction (snd o)) ->
                 is_Some (extract_stack_offset_from_instruction (snd r))) ->
  exists ps,
    analyze_zip lines acc = Some ps /\
    (forall p, In p ps ->
               In p acc \/
               exists i o r, lines !! i = Some (o, r) /\
                             extract_stack_offset_from_instruction (snd o) = Some (orig p) /\
                             extract_stack_offset_from_instruction (snd r) = Some (recomp p)) /\
    (forall p, set_contains p acc = true -> set_contains p ps = true) /\
    (forall i o r x y, lines !! i = Some (o, r) ->
                       extract_stack_offset_from_instruction (snd o) = Some x ->
                       extract_stack_offset_from_instruction (snd r) = Some y ->
                       set_contains (mkStackPair x y) ps = true).
Proof.
  revert acc. induction lines as [|[o r] lines IH]; intros acc Hok.
  - exists acc. split; [reflexivity|]. split; [auto|]. split; [auto|].
    intros i o r x y H. destruct i; discriminate.
  - cbn [analyze_zip].
    assert (Hrest : forall i o' r', lines !! i = Some (o', r') ->
                      is_Some (extract_stack_offset_from_instruction (snd o')) ->
                      is_Some (extract_stack_offset_from_instruction (snd r'))).
    { intros i o' r' H. apply (Hok (S i)). exact H. }
    destruct (extract_stack_offset_from_instruction (snd o)) as [x|] eqn:Ex.
    + destruct (Hok 0%nat o r eq_refl) as [y Ey]; [rewrite Ex; eauto|].
      rewrite Ey.
      destruct (IH (set_add (mkStackPair x y) acc) Hrest) as (ps & Hrun & Hfrom & Hkeep & Hall).
      exists ps. split; [exact Hrun|]. split; [|split].
      * intros p Hp. destruct (Hfrom p Hp) as [Hin|(i & o' & r' & Hl & Ho & Hr)].
        -- apply set_add_In in Hin as [Hin|[_ ->]]; [left; exact Hin|].
           right. exists 0%nat, o, r. auto.
        -- right. exists (S i), o', r'. auto.
      * intros p Hp. apply Hkeep, set_add_keeps, Hp.
      * intros [|i] o' r' x' y' Hl Ho Hr.
        -- injection Hl as <- <-. rewrite Ex in Ho. rewrite Ey in Hr.
           injection Ho as <-. injection Hr as <-.
           apply Hkeep, set_add_contains.
        -- apply (Hall i o' r' x' y' Hl Ho Hr).
    + destruct (IH acc Hrest) as (ps & Hrun & Hfrom & Hkeep & Hall).
      exists ps. split; [exact Hrun|]. split; [|split].
      * intros p Hp. destruct (Hfrom p Hp) as [Hin|(i & o' & r' & Hl & Ho & Hr)];
          [left; exact Hin|].
        right. exists (S i), o', r'. auto.
      * exact Hkeep.
      * intros [|i] o' r' x' y' Hl Ho Hr.
        -- injection Hl as <- <-. congruence.
        -- apply (Hall i o' r' x' y' Hl Ho Hr).
Qed.

(** The loop over the lines of an aligned region. *)
Lemma analyze_both_lines lines acc :
  (forall p, In p (analyze_both lines acc) ->
             In p acc \/
             exists line, In line lines /\
               extract_stack_offset_from_instruction (snd (fst line)) = Some (orig p) /\
               recomp p = orig p) /\
  (forall p, set_contains p acc = true -> set_contains p (analyze_both lines acc) = true) /\
  (forall line x, In line lines ->
                  extract_stack_offset_from_instruction (snd (fst line)) = Some x ->
                  set_contains (mkStackPair x x) (analyze_both lines acc) = true).
Proof.
  revert acc. induction lines as [|line lines IH]; intros acc.
  - split; [auto|]. split; [auto|]. intros line x [].
  - cbn [analyze_both].
    destruct (extract_stack_offset_from_instruction (snd (fst line))) as [x|] eqn:Ex.
    + destruct (IH (set_add (mkStackPair x (copy x)) acc)) as (Hfrom & Hkeep & Hall).
      split; [|split].
      * intros p Hp. destruct (Hfrom p Hp) as [Hin|(l & Hl & Ho & Hr)].
        -- apply set_add_In in Hin as [Hin|[_ ->]]; [left; exact Hin|].
           right. exists line. simpl. rewrite copy_id. auto.
        -- right. exists l. simpl. auto.
      * intros p Hp. apply Hkeep, set_add_keeps, Hp.
      * intros l y [<-|Hl] Hy.
        -- rewrite Ex in Hy. injection Hy as <-.
           apply Hkeep. rewrite <- (copy_id x) at 2. apply set_add_contains.
        -- apply (Hall l y Hl Hy).
    + destruct (IH acc) as (Hfrom & Hkeep & Hall).
      split; [|split].
      * intros p Hp. destruct (Hfrom p Hp) as [Hin|(l & Hl & Ho & Hr)];
          [left; exact Hin|].
        right. exists l. simpl. auto.
      * exact Hkeep.
      * intros l y [<-|Hl] Hy; [congruence|]. apply (Hall l y Hl Hy).
Qed.

End Regions.

(** X6. A region either leaves the flags as they are, or it is a
    divergent region that raises the structural mismatch and contributes
    no pair.  No region touches the not-bijective flag or lowers a flag. *)
Theorem region_raises_flag_only_with_empty_result d w :
  error_map_not_bijective (snd (analyze_diff d w)) = error_map_not_bijective w /\
  (structural_mismatches_present w = true ->
   structural_mismatches_present (snd (analyze_diff d w)) = true) /\
  (snd (analyze_diff d w) = w \/
   (snd (analyze_diff d w) = set_structural_mismatches_present w /\
    fst (analyze_diff d w) = [] /\
    exists orig_lines recomp_lines, d = MismatchingBlock orig_lines recomp_lines)).
Proof.
  destruct d as [both|ol rl]; simpl.
  - auto.
  - destruct (negb (Nat.eqb (length ol) (length rl))).
    + simpl. split; [reflexivity|]. split; [reflexivity|]. right. eauto.
    + destruct (analyze_zip (combine ol rl) []); simpl.
      * auto.
      * split; [reflexivity|]. split; [reflexivity|]. right. eauto.
Qed.

(** X7. In a divergent region with as many original as recomp lines, a
    recomp line is read only when the original line at its position has
    a reference.  When no original line has one, the region contributes
    nothing and raises no flag, whatever the recomp lines hold. *)
Theorem recomp_only_references_are_dropped orig_lines recomp_lines w :
  length orig_lines = length recomp_lines ->
  (forall o, In o orig_lines -> extract_stack_offset_from_instruction (snd o) = None) ->
  analyze_diff (MismatchingBlock orig_lines recomp_lines) w = ([], w).
Proof.
  intros Hlen Hnone. unfold analyze_diff. rewrite Hlen, Nat.eqb_refl. simpl.
  assert (H : analyze_zip (combine orig_lines recomp_lines) [] = Some []).
  { generalize (@nil StackPair). revert recomp_lines Hlen.
    induction orig_lines as [|o ol IH]; intros [|r rl] Hlen acc; try discriminate.
    - reflexivity.
    - simpl. rewrite (Hnone o) by (left; reflexivity).
      injection Hlen as Hlen. apply IH; [|exact Hlen].
      intros o' Ho'. apply Hnone. right. exact Ho'. }
  rewrite H. reflexivity.
Qed.

Lemma recomp_only_references_are_dropped_witness :
  analyze_diff
    (MismatchingBlock [("0x1000", "mov eax, ebx"); ("0x1002", "push eax")]
                      [("0x2000", "mov eax, [ebp - 0x8]"); ("0x2003", "push eax")])
    (mkWarnings false false) = ([], mkWarnings false false).
Proof.
  apply recomp_only_references_are_dropped; [reflexivity|].
  intros o [<-|[<-|[]]]; reflexivity.
Defined.

(** X8. A divergent region with as many original as recomp lines, in
    which every original line with a reference faces a recomp line with
    a reference, leaves the flags alone and is matched by position: every
    pair of the result joins the references of the two lines of one
    position, and every such position has its pair in the result. *)
Theorem divergent_region_is_matched_by_position orig_lines recomp_lines w :
  length orig_lines = length recomp_lines ->
  (forall i o r, orig_lines !! i = Some o -> recomp_lines !! i = Some r ->
                 is_Some (extract_stack_offset_from_instruction (snd o)) ->
                 is_Some (extract_stack_offset_from_instruction (snd r))) ->
  snd (analyze_diff (MismatchingBlock orig_lines recomp_lines) w) = w /\
  (forall p, In p (fst (analyze_diff (MismatchingBlock orig_lines recomp_lines) w)) ->
             exists i o r,
               orig_lines !! i = Some o /\ recomp_lines !! i = Some r /\
               extract_stack_offset_from_instruction (snd o) = Some (orig p) /\
               extract_stack_offset_from_instruction (snd r) = Some (recomp p)) /\
  (forall i o r x y,
      orig_lines !! i = Some o -> recomp_lines !! i = Some r ->
      extract_stack_offset_from_instruction (snd o) = Some x ->
      extract_stack_offset_from_instruction (snd r) = Some y ->
      set_contains (mkStackPair x y)
        (fst (analyze_diff (MismatchingBlock orig_lines recomp_lines) w)) = true).
Proof.
  intros Hlen Hok. unfold analyze_diff. rewrite Hlen, Nat.eqb_refl. simpl.
  destruct (analyze_zip_positions (combine orig_lines recomp_lines) [])
    as (ps & Hrun & Hfrom & _ & Hall).
  { intros i o r Hl. apply combine_lookup in Hl as [Ho Hr]. eauto. }
  rewrite Hrun. simpl. split; [reflexivity|]. split.
  - intros p Hp. destruct (Hfrom p Hp) as [[]|(i & o & r & Hl & Ho & Hr)].
    apply combine_lookup in Hl as [Hlo Hlr]. eauto 10.
  - intros i o r x y Ho Hr Hx Hy.
    apply (Hall i o r x y); [apply combine_lookup; auto|exact Hx|exact Hy].
Qed.

Lemma divergent_region_is_matched_by_position_witness :
  let orig_lines := [("0x1000", "mov eax, [ebp - 0x4]"); ("0x1003", "push eax")] in
  let recomp_lines := [("0x2000", "mov eax, [ebp - 0x8]"); ("0x2003", "push ecx")] in
  length orig_lines = length recomp_lines /\
  set_contains (mkStackPair (sro "ebp" (-4)) (sro "ebp" (-8)))
    (fst (analyze_diff (MismatchingBlock orig_lines recomp_lines)
            (mkWarnings false false))) = true.
Proof.
  intros orig_lines recomp_lines. split; [reflexivity|].
  assert (Hok : forall i o r, orig_lines !! i = Some o -> recomp_lines !! i = Some r ->
                  is_Some (extract_stack_offset_from_instruction (snd o)) ->
                  is_Some (extract_stack_offset_from_instruction (snd r))).
  { intros [|[|i]] o r Ho Hr; try discriminate.
    - injection Hr as <-. intros _. eexists. reflexivity.
    - injection Ho as <-. intros [x Hx]. discriminate. }
  exact (proj2 (proj2 (divergent_region_is_matched_by_position orig_lines recomp_lines
                         (mkWarnings false false) eq_refl Hok))
           0%nat ("0x1000", "mov eax, [ebp - 0x4]") ("0x2000", "mov eax, [ebp - 0x8]")
           (sro "ebp" (-4)) (sro "ebp" (-8)) eq_refl eq_refl eq_refl eq_refl).
Defined.

(** X9. An aligned region contributes, for every line with a reference,
    the pair of that reference with itself, and nothing else; it leaves
    the flags alone. *)
Theorem aligned_region_pairs_its_references both w :
  snd (analyze_diff (MatchingBlock both) w) = w /\
  (forall p, In p (fst (analyze_diff (MatchingBlock both) w)) ->
             exists line, In line both /\
               extract_stack_offset_from_instruction (snd (fst line)) = Some (orig p) /\
               recomp p = orig p) /\
  (forall line x, In line both ->
                  extract_stack_offset_from_instruction (snd (fst line)) = Some x ->
                  set_contains (mkStackPair x x)
                    (fst (analyze_diff (MatchingBlock both) w)) = true).
Proof.
  simpl. destruct (analyze_both_lines both []) as (Hfrom & _ & Hall).
  split; [reflexivity|]. split; [|exact Hall].
  intros p Hp. destruct (Hfrom p Hp) as [[]|H]. exact H.
Qed.

(** ** The table of debug symbols *)

Section SymbolTable.

Lemma build_stack_symbols_cons sym rest t :
  build_stack_symbols (sym :: rest) t =
  if is_bprel sym then
    match location_offset (location sym) with
    | Some k => build_stack_symbols rest (<[k := symbol_entry sym]> t)
    | None => None
    end
  else build_stack_symbols rest t.
Proof.
  cbn [build_stack_symbols]. unfold is_bprel, location_offset, symbol_entry.
  destruct (String.eqb (symbol_type sym) "S_BPREL32"); [|reflexivity].
  destruct (bytes_fromhex (slice_1_m1 (location sym))); [|reflexivity].
  destruct (struct_unpack_be_l l); reflexivity.
Qed.

Lemma bytes_fromhex_range s bs :
  bytes_fromhex s = Some bs -> Forall (fun b => 0 <= b < 256) bs.
Proof.
  remember (String.length s) as n eqn:Hn. revert s bs Hn.
  induction n as [n IH] using lt_wf_ind. intros s bs Hn.
  destruct s as [|c s']; cbn [bytes_fromhex].
  - intros [= <-]. constructor.
  - destruct (is_ascii_space c).
    + apply (IH (String.length s')); [simpl in Hn; lia|reflexivity].
    + destruct s' as [|d s'']; [discriminate|].
      destruct (hex_digit_value c) as [hi|] eqn:Ehi; [|discriminate].
      destruct (hex_digit_value d) as [lo|] eqn:Elo; [|discriminate].
      destruct (bytes_fromhex s'') as [rest|] eqn:Er; [|discriminate].
      intros [= <-]. constructor.
      * apply hex_digit_value_nonneg in Ehi, Elo. lia.
      * apply (IH (String.length s'')) with (s := s''); [simpl in Hn; lia|reflexivity|exact Er].
Qed.

Lemma location_offset_reading loc k :
  location_offset loc = Some k ->
  exists b0 b1 b2 b3,
    bytes_fromhex (slice_1_m1 loc) = Some [b0; b1; b2; b3] /\
    (0 <= b0 < 256 /\ 0 <= b1 < 256 /\ 0 <= b2 < 256 /\ 0 <= b3 < 256) /\
    - 2 ^ 31 <= k < 2 ^ 31 /\
    k mod 2 ^ 32 = ((b0 * 256 + b1) * 256 + b2) * 256 + b3.
Proof.
  unfold location_offset.
  destruct (bytes_fromhex (slice_1_m1 loc)) as [bs|] eqn:E; [|discriminate].
  pose proof (bytes_fromhex_range _ _ E) as HF.
  destruct bs as [|b0 [|b1 [|b2 [|b3 [|b4 bs]]]]]; try discriminate.
  cbn [struct_unpack_be_l]. intros [= <-].
  inversion HF as [|? ? H0 HF1]; subst. inversion HF1 as [|? ? H1 HF2]; subst.
  inversion HF2 as [|? ? H2 HF3]; subst. inversion HF3 as [|? ? H3 _]; subst.
  exists b0, b1, b2, b3. split; [reflexivity|]. split; [auto|].
  set (u := ((b0 * 256 + b1) * 256 + b2) * 256 + b3).
  assert (Hu : 0 <= u < 2 ^ 32) by (unfold u; lia).
  destruct (Z.ltb_spec u (2 ^ 31)).
  - split; [lia|]. apply Z.mod_small. lia.
  - split; [lia|].
    replace (u - 2 ^ 32) with (u + (-1) * 2 ^ 32) by lia.
    rewrite Z.mod_add by lia. apply Z.mod_small. lia.
Qed.

(** Every entry of the table is an entry of the initial table or comes
    from an [S_BPREL32] symbol of the list. *)
Lemma build_stack_symbols_sound symbols t0 t k v :
  build_stack_symbols symbols t0 = Some t -> t !! k = Some v ->
  t0 !! k = Some v \/
  exists sym, In sym symbols /\ is_bprel sym = true /\
              location_offset (location sym) = Some k /\ v = symbol_entry sym.
Proof.
  revert t0. induction symbols as [|sym rest IH]; intros t0.
  - cbn. intros [= <-]. auto.
  - rewrite build_stack_symbols_cons.
    destruct (is_bprel sym) eqn:Eb.
    + destruct (location_offset (location sym)) as [k0|] eqn:El; [|discriminate].
      intros Hb Hk. destruct (IH _ Hb Hk) as [H0|(s & Hs & Hbs & Hls & Hv)].
      * destruct (decide (k0 = k)) as [->|Hne].
        -- rewrite lookup_insert_eq in H0. injection H0 as <-.
           right. exists sym. simpl. auto.
        -- rewrite lookup_insert_ne in H0 by exact Hne. auto.
      * right. exists s. simpl. auto.
    + intros Hb Hk. destruct (IH _ Hb Hk) as [H0|(s & Hs & Hbs & Hls & Hv)]; [auto|].
      right. exists s. simpl. auto.
Qed.

Lemma build_stack_symbols_app l1 l2 t0 :
  build_stack_symbols (l1 ++ l2) t0 =
  match build_stack_symbols l1 t0 with
  | Some t1 => build_stack_symbols l2 t1
  | None => None
  end.
Proof.
  revert t0. induction l1 as [|sym l1 IH]; intros t0; [reflexivity|].
  rewrite <- app_comm_cons, !build_stack_symbols_cons.
  destruct (is_bprel sym); [|apply IH].
  destruct (location_offset (location sym)); [apply IH|reflexivity].
Qed.

(** An entry stays when no later symbol of the list has its offset. *)
Lemma build_stack_symbols_keeps symbols t0 t k v :
  build_stack_symbols symbols t0 = Some t -> t0 !! k = Some v ->
  (forall sym, In sym symbols -> is_bprel sym = true ->
               location_offset (location sym) <> Some k) ->
  t !! k = Some v.
Proof.
  revert t0. induction symbols as [|sym rest IH]; intros t0.
  - cbn. intros [= <-]. auto.
  - rewrite build_stack_symbols_cons. intros Hb H0 Hlater.
    assert (Hrest : forall s, In s rest -> is_bprel s = true ->
                              location_offset (location s) <> Some k).
    { intros s Hs. apply Hlater. right. exact Hs. }
    destruct (is_bprel sym) eqn:Eb; [|apply (IH t0 Hb H0 Hrest)].
    destruct (location_offset (location sym)) as [k0|] eqn:El; [|discriminate].
    apply (IH _ Hb); [|exact Hrest].
    rewrite lookup_insert_ne; [exact H0|].
    intros ->. apply (Hlater sym); [left; reflexivity|exact Eb|exact El].
Qed.

Lemma build_stack_symbols_None symbols t0 :
  build_stack_symbols symbols t0 = None <->
  exists sym, In sym symbols /\ is_bprel sym = true /\
              location_offset (location sym) = None.
Proof.
  revert t0. induction symbols as [|sym rest IH]; intros t0.
  - cbn. split; [discriminate|]. intros (s & [] & _).
  - rewrite build_stack_symbols_cons.
    destruct (is_bprel sym) eqn:Eb.
    + destruct (location_offset (location sym)) as [k0|] eqn:El.
      * rewrite IH. split.
        -- intros (s & Hs & H). exists s. simpl. auto.
        -- intros (s & [<-|Hs] & Hb & Hl); [congruence|]. exists s. auto.
      * split; [|reflexivity]. intros _. exists sym. simpl. auto.
    + rewrite IH. split.
      * intros (s & Hs & H). exists s. simpl. auto.
      * intros (s & [<-|Hs] & Hb & Hl); [congruence|]. exists s. auto.
Qed.

End SymbolTable.

(** X10. Every entry of the symbol table comes from an [S_BPREL32] symbol
    of the function and holds its name and type; its key is the signed
    32 bit big-endian reading of the four bytes written in the location,
    so it lies between -2^31 and 2^31 - 1. *)
Theorem symbol_table_entries_come_from_bprel_symbols symbols t k v :
  build_stack_symbols symbols ∅ = Some t -> t !! k = Some v ->
  exists sym b0 b1 b2 b3,
    In sym symbols /\ symbol_type sym = "S_BPREL32" /\
    v = mkStackSymbol (sym_name sym) (sym_data_type sym) /\
    bytes_fromhex (slice_1_m1 (location sym)) = Some [b0; b1; b2; b3] /\
    (0 <= b0 < 256 /\ 0 <= b1 < 256 /\ 0 <= b2 < 256 /\ 0 <= b3 < 256) /\
    - 2 ^ 31 <= k < 2 ^ 31 /\
    k mod 2 ^ 32 = ((b0 * 256 + b1) * 256 + b2) * 256 + b3.
Proof.
  intros Hb Hk.
  destruct (build_stack_symbols_sound symbols ∅ t k v Hb Hk)
    as [H0|(sym & Hs & Hbp & Hl & Hv)].
  { rewrite lookup_empty in H0. discriminate. }
  destruct (location_offset_reading _ _ Hl) as (b0 & b1 & b2 & b3 & Hbytes & Hr & Hk1 & Hk2).
  exists sym, b0, b1, b2, b3.
  split; [exact Hs|]. split; [apply String.eqb_eq, Hbp|]. auto.
Qed.

Lemma symbol_table_entries_come_from_bprel_symbols_witness :
  let symbols := [mkStackOrRegisterSymbol "S_BPREL32" "[FFFFFFF0]" "T_INT4" "m_flags"] in
  exists t, build_stack_symbols symbols ∅ = Some t /\
            t !! (-16) = Some (mkStackSymbol "m_flags" "T_INT4") /\
            exists sym, In sym symbols /\ symbol_type sym = "S_BPREL32".
Proof.
  intros symbols. exists {[ -16 := mkStackSymbol "m_flags" "T_INT4" ]}.
  assert (Hb : build_stack_symbols symbols ∅ =
               Some {[ -16 := mkStackSymbol "m_flags" "T_INT4" ]}) by reflexivity.
  assert (Hk : ({[ -16 := mkStackSymbol "m_flags" "T_INT4" ]} : gmap Z StackSymbol) !! (-16)
               = Some (mkStackSymbol "m_flags" "T_INT4")) by reflexivity.
  split; [exact Hb|]. split; [exact Hk|].
  destruct (symbol_table_entries_come_from_bprel_symbols symbols _ _ _ Hb Hk)
    as (sym & _ & _ & _ & _ & Hs & Ht & _).
  exists sym. auto.
Defined.

(** X11. When two [S_BPREL32] symbols have the same offset the later one
    wins: the table holds, at the offset of a symbol, the name and type of
    that symbol whenever no later symbol of the list has the same offset. *)
Theorem later_symbol_wins before sym after t k :
  build_stack_symbols (before ++ sym :: after) ∅ = Some t ->
  symbol_type sym = "S_BPREL32" ->
  location_offset (location sym) = Some k ->
  (forall s, In s after -> symbol_type s = "S_BPREL32" ->
             location_offset (location s) <> Some k) ->
  t !! k = Some (mkStackSymbol (sym_name sym) (sym_data_type sym)).
Proof.
  intros Hb Ht Hl Hafter. rewrite build_stack_symbols_app in Hb.
  destruct (build_stack_symbols before ∅) as [t1|]; [|discriminate].
  rewrite build_stack_symbols_cons in Hb.
  unfold is_bprel in Hb. rewrite Ht, Hl in Hb. simpl in Hb.
  apply (build_stack_symbols_keeps after _ t k _ Hb).
  - apply lookup_insert_eq.
  - intros s Hs Hbp. apply Hafter; [exact Hs|apply String.eqb_eq, Hbp].
Qed.

Lemma later_symbol_wins_witness :
  let first := mkStackOrRegisterSymbol "S_BPREL32" "[FFFFFFFC]" "T_INT4" "i" in
  let second := mkStackOrRegisterSymbol "S_BPREL32" "[fffffffc]" "T_REAL32" "f" in
  exists t, build_stack_symbols ([first] ++ second :: []) ∅ = Some t /\
            t !! (-4) = Some (mkStackSymbol "f" "T_REAL32").
Proof.
  intros first second.
  destruct (build_stack_symbols ([first] ++ second :: []) ∅) as [t|] eqn:E;
    [|discriminate E].
  exists t. split; [reflexivity|].
  apply (later_symbol_wins [first] second [] t (-4) E eq_refl eq_refl).
  intros s [].
Defined.

(** X12. Symbols of another kind than [S_BPREL32] play no part in the
    table: they are skipped without their location being read, so the
    table of a list is the table of its [S_BPREL32] symbols. *)
Theorem other_symbols_are_skipped symbols t :
  build_stack_symbols symbols t =
  build_stack_symbols
    (List.filter (fun sym => String.eqb (symbol_type sym) "S_BPREL32") symbols) t.
Proof.
  revert t. induction symbols as [|sym rest IH]; intros t; [reflexivity|].
  cbn [List.filter]. rewrite build_stack_symbols_cons. unfold is_bprel.
  destruct (String.eqb (symbol_type sym) "S_BPREL32") eqn:E.
  - rewrite build_stack_symbols_cons. unfold is_bprel. rewrite E.
    destruct (location_offset (location sym)); [apply IH|reflexivity].
  - apply IH.
Qed.

(** X13. [compare_function_stacks] raises exactly when the location of
    some [S_BPREL32] symbol does not decode to four bytes; it then prints
    nothing, whatever the diff.  In every other case it returns. *)
Theorem compare_function_stacks_raises_on_bad_location order udiff fn_symbol :
  compare_function_stacks order udiff fn_symbol = None <->
  exists sym, In sym (stack_symbols_of fn_symbol) /\
              symbol_type sym = "S_BPREL32" /\
              location_offset (location sym) = None.
Proof.
  split.
  - intros Hnone.
    destruct (build_stack_symbols (stack_symbols_of fn_symbol) ∅) as [syms|] eqn:E.
    + destruct (compare_function_stacks_returns order udiff fn_symbol syms E)
        as (out & w & H). congruence.
    + apply build_stack_symbols_None in E as (sym & Hs & Hb & Hl).
      exists sym. split; [exact Hs|]. split; [apply String.eqb_eq, Hb|exact Hl].
  - intros (sym & Hs & Ht & Hl).
    assert (E : build_stack_symbols (stack_symbols_of fn_symbol) ∅ = None).
    { apply build_stack_symbols_None. exists sym.
      split; [exact Hs|]. split; [apply String.eqb_eq, Ht|exact Hl]. }
    unfold compare_function_stacks.
    destruct (collect_stack_pairs udiff (mkWarnings false false)).
    rewrite E. reflexivity.
Qed.

Example location_examples :
  location_offset "[FFFFFFF0]" = Some (-16) /\
  location_offset "[00000008]" = Some 8 /\
  location_offset "[80000000]" = Some (- 2 ^ 31) /\
  location_offset "[FFF0]" = None /\
  location_offset "[ebp-0x10]" = None /\
  location_offset "" = None.
Proof. repeat split. Qed.

(** ** What the views print *)

Section Classification.

Lemma sorted_strictly (s : gset Z) : StronglySorted Z.lt (sorted s).
Proof.
  pose proof (sorted_NoDup s) as Hnd.
  assert (Hs : StronglySorted Z.le (sorted s)).
  { unfold sorted. apply StronglySorted_merge_sort; typeclasses eauto. }
  induction Hs as [|a l Hs IH Ha]; [constructor|].
  apply NoDup_cons in Hnd as [Hna Hnd].
  constructor; [apply IH, Hnd|].
  rewrite List.Forall_forall in Ha |- *. intros x Hx.
  specialize (Ha x Hx).
  assert (a <> x) by (intros ->; apply Hna, list_elem_of_In, Hx). lia.
Qed.

Lemma original_line_cases ps o e :
  original_line ps o = Some e ->
  exists r,
    first_orig ps o = Some r /\
    ((exists p, List.filter (fun x => sro_eq (orig x) r) ps = [p] /\
                e = BijectiveMatch (Str r) (Str (recomp p)) (sro_eq r (recomp p)) /\
                original_ambiguous ps o = false) \/
     (e = NonBijectiveMatch (Str r) (ListStr (recomps_of ps r)) /\
      length (recomps_of ps r) <> 1%nat /\
      original_ambiguous ps o = true)).
Proof.
  unfold original_line, original_ambiguous, by_original_entry, recomps_of.
  destruct (first_orig ps o) as [r|]; [|discriminate].
  intros H. exists r. split; [reflexivity|].
  destruct (List.filter (fun x => sro_eq (orig x) r) ps) as [|a [|b l]];
    simpl in *; injection H as <-.
  - right. auto.
  - left. exists a. auto.
  - right. auto.
Qed.

Lemma recomp_line_cases ps syms o e :
  recomp_line ps syms o = Some e ->
  (first_recomp ps o = None /\ recomp_ambiguous ps syms o = false /\
   exists sym, syms !! o = Some sym /\
               e = NotSeen (mkStackRegisterOffset "ebp" o (Some sym))) \/
  exists r,
    first_recomp ps o = Some r /\
    ((exists p, List.filter (fun x => sro_eq (recomp x) r) ps = [p] /\
                e = BijectiveMatch (Str (orig p)) (Str r) (sro_eq (orig p) r) /\
                recomp_ambiguous ps syms o = false) \/
     (e = NonBijectiveMatch (ListStr (origs_of ps r)) (Str r) /\
      length (origs_of ps r) <> 1%nat /\
      recomp_ambiguous ps syms o = true)).
Proof.
  unfold recomp_line, recomp_ambiguous, by_recomp_entry, origs_of.
  destruct (first_recomp ps o) as [r|].
  - intros H. right. exists r. split; [reflexivity|].
    destruct (List.filter (fun x => sro_eq (recomp x) r) ps) as [|a [|b l]];
      simpl in *; injection H as <-.
    + right. auto.
    + left. exists a. auto.
    + right. auto.
  - destruct (syms !! o) as [sym|]; [|discriminate].
    simpl. intros [= <-]. left. eauto.
Qed.

Lemma Forall2_existsb {A B} (f : A -> bool) (g : B -> bool) R l k :
  (forall a b, R a b -> f a = g b) ->
  Forall2 R l k -> existsb f l = existsb g k.
Proof.
  intros H HF. induction HF as [|a b l k Hab HF IH]; [reflexivity|].
  simpl. rewrite (H a b Hab), IH. reflexivity.
Qed.

Lemma Forall2_flat_map {A B} (g : B -> list A) R (l : list A) k :
  (forall a b, R a b -> g b = [a]) ->
  Forall2 R l k -> flat_map g k = l.
Proof.
  intros H HF. induction HF as [|a b l k Hab HF IH]; [reflexivity|].
  simpl. rewrite (H a b Hab), IH. reflexivity.
Qed.

Lemma Forall2_In_r {A B} (R : A -> B -> Prop) l k y :
  Forall2 R l k -> In y k -> exists x, x ∈ l /\ R x y.
Proof.
  induction 1 as [|a b l k Hab HF IH]; intros Hy; [destruct Hy|].
  destruct Hy as [<-|Hy].
  - exists a. split; [left|exact Hab].
  - destruct (IH Hy) as (x & Hx & HR). exists x. split; [right; exact Hx|exact HR].
Qed.

Lemma flag_not_bijective_error b w :
  error_map_not_bijective (flag_not_bijective b w) =
  (error_map_not_bijective w || b)%bool.
Proof. destruct b, w as [a []]; reflexivity. Qed.

Lemma original_line_flag ps o e :
  original_line ps o = Some e -> original_ambiguous ps o = is_non_bijective e.
Proof.
  intros H. apply original_line_cases in H as (r & _ & [(p & _ & -> & ->)|(-> & _ & ->)]);
    reflexivity.
Qed.

Lemma recomp_line_flag ps syms o e :
  recomp_line ps syms o = Some e -> recomp_ambiguous ps syms o = is_non_bijective e.
Proof.
  intros H.
  apply recomp_line_cases in H
    as [(_ & -> & sym & _ & ->)|(r & _ & [(p & _ & -> & ->)|(-> & _ & ->)])];
    reflexivity.
Qed.

Lemma original_line_offset ps o e :
  original_line ps o = Some e -> map offset (line_left e) = [o].
Proof.
  intros H. apply original_line_shape in H as (r & Hr & -> & _).
  apply first_orig_inv in Hr as [<- _]. reflexivity.
Qed.

Lemma recomp_line_offset ps syms o e :
  recomp_line ps syms o = Some e -> map offset (line_right e) = [o].
Proof.
  intros H.
  apply recomp_line_cases in H
    as [(_ & _ & sym & _ & ->)|(r & Hr & [(p & _ & -> & _)|(-> & _ & _)])];
    try reflexivity; apply first_recomp_inv in Hr as [<- _]; reflexivity.
Qed.

End Classification.

(** X14. The by-original view prints, after its header, one line for
    every offset of an original side of the set, in strictly ascending
    order of the offset. *)
Theorem by_original_view_is_ordered (ps : StackPairs) w :
  exists lines w',
    print_by_original_stack ps w = Some (HeaderOriginal :: lines, w') /\
    StronglySorted Z.lt (left_offsets lines) /\
    length lines = length (left_offsets lines) /\
    forall o, In o (left_offsets lines) <-> exists p, In p ps /\ offset (orig p) = o.
Proof.
  destruct (print_by_original_stack_split ps w) as (lines & HF & Hrun).
  assert (Hoffs : left_offsets lines = sorted (all_orig_offsets ps)).
  { unfold left_offsets.
    apply (Forall2_flat_map _ _ _ _ (fun a b H => original_line_offset ps a b H) HF). }
  exists lines. eexists. split; [exact Hrun|]. rewrite Hoffs.
  split; [apply sorted_strictly|]. split.
  - symmetry. apply (Forall2_length _ _ _ HF).
  - intros o. rewrite <- list_elem_of_In, sorted_elem. apply all_orig_offsets_elem.
Qed.

(** X15. The by-recomp view prints, after its header, one line for every
    offset that is the offset of a recomp side of the set or a key of the
    symbol table, in strictly ascending order of the offset. *)
Theorem by_recomp_view_is_ordered (ps : StackPairs) (syms : gmap Z StackSymbol) w :
  exists lines w',
    print_by_recomp_stack ps syms w = Some (HeaderRecomp :: lines, w') /\
    StronglySorted Z.lt (right_offsets lines) /\
    length lines = length (right_offsets lines) /\
    forall o, In o (right_offsets lines) <->
              (exists p, In p ps /\ offset (recomp p) = o) \/ is_Some (syms !! o).
Proof.
  destruct (print_by_recomp_stack_split ps syms w) as (lines & HF & Hrun).
  assert (Hoffs : right_offsets lines = sorted (all_recomp_offsets ps syms)).
  { unfold right_offsets.
    apply (Forall2_flat_map _ _ _ _ (fun a b H => recomp_line_offset ps syms a b H) HF). }
  exists lines. eexists. split; [exact Hrun|]. rewrite Hoffs.
  split; [apply sorted_strictly|]. split.
  - symmetry. apply (Forall2_length _ _ _ HF).
  - intros o. rewrite <- list_elem_of_In, sorted_elem. apply all_recomp_offsets_elem.
Qed.

(** X16. The by-original view raises the not-bijective flag exactly when
    it prints a non-bijective line, and touches no other flag.  A
    bijective line shows the only pair of the set whose original side
    equals the reference on its left, marked exact exactly when the two
    sides have the same register and offset; a non-bijective line lists
    the recomp sides of two or more pairs. *)
Theorem by_original_view_classifies (ps : StackPairs) w :
  exists lines w',
    print_by_original_stack ps w = Some (HeaderOriginal :: lines, w') /\
    error_map_not_bijective w' =
      (error_map_not_bijective w || existsb is_non_bijective lines)%bool /\
    structural_mismatches_present w' = structural_mismatches_present w /\
    forall e, In e lines ->
      (exists r p,
          List.filter (fun x => sro_eq (orig x) r) ps = [p] /\
          e = BijectiveMatch (Str r) (Str (recomp p)) (sro_eq r (recomp p)) /\
          (sro_eq r (recomp p) = true <->
           register r = register (recomp p) /\ offset r = offset (recomp p))) \/
      (exists r,
          e = NonBijectiveMatch (Str r)
                (ListStr (map recomp (List.filter (fun x => sro_eq (orig x) r) ps))) /\
          (exists p, In p ps /\ orig p = r) /\
          (2 <= length (List.filter (fun x => sro_eq (orig x) r) ps))%nat).
Proof.
  destruct (print_by_original_stack_split ps w) as (lines & HF & Hrun).
  exists lines. eexists. split; [exact Hrun|].
  rewrite (Forall2_existsb (original_ambiguous ps) is_non_bijective _ _ _
             (fun a b H => original_line_flag ps a b H) HF).
  split; [apply flag_not_bijective_error|].
  split; [apply flag_not_bijective_structural|].
  intros e He. destruct (Forall2_In_r _ _ _ e HF He) as (o & _ & Hline).
  apply original_line_cases in Hline as (r & Hfirst & [(p & Hf & -> & _)|(-> & Hlen & _)]).
  - left. exists r, p. split; [exact Hf|]. split; [reflexivity|apply sro_eq_spec].
  - right. exists r. split; [reflexivity|].
    apply first_orig_inv in Hfirst as (_ & p & Hp & Hr).
    split; [eauto|].
    unfold recomps_of in Hlen. rewrite length_map in Hlen.
    assert (Hin : In p (List.filter (fun x => sro_eq (orig x) r) ps)).
    { apply filter_In. split; [exact Hp|]. rewrite Hr. apply sro_eq_refl. }
    destruct (List.filter (fun x => sro_eq (orig x) r) ps) as [|a [|b l]];
      simpl in *; [destruct Hin|congruence|lia].
Qed.

(** X17. The by-recomp view raises the not-bijective flag exactly when it
    prints a non-bijective line, and touches no other flag.  A line "not
    seen" is printed for an offset exactly when the table has a symbol
    there and no recomp side of the set, of either register, has that
    offset; the line then shows [ebp], the offset and the symbol. *)
Theorem by_recomp_view_classifies (ps : StackPairs) (syms : gmap Z StackSymbol) w :
  exists lines w',
    print_by_recomp_stack ps syms w = Some (HeaderRecomp :: lines, w') /\
    error_map_not_bijective w' =
      (error_map_not_bijective w || existsb is_non_bijective lines)%bool /\
    structural_mismatches_present w' = structural_mismatches_present w /\
    (forall x, In (NotSeen x) lines <->
               exists sym, syms !! offset x = Some sym /\
                           x = mkStackRegisterOffset "ebp" (offset x) (Some sym) /\
                           forall p, In p ps -> offset (recomp p) <> offset x) /\
    forall e, In e lines ->
      (exists x, e = NotSeen x) \/
      (exists r p,
          List.filter (fun x => sro_eq (recomp x) r) ps = [p] /\
          e = BijectiveMatch (Str (orig p)) (Str r) (sro_eq (orig p) r)) \/
      (exists r,
          e = NonBijectiveMatch
                (ListStr (map orig (List.filter (fun x => sro_eq (recomp x) r) ps)))
                (Str r) /\
          (exists p, In p ps /\ recomp p = r) /\
          (2 <= length (List.filter (fun x => sro_eq (recomp x) r) ps))%nat).
Proof.
  destruct (print_by_recomp_stack_split ps syms w) as (lines & HF & Hrun).
  exists lines. eexists. split; [exact Hrun|].
  rewrite (Forall2_existsb (recomp_ambiguous ps syms) is_non_bijective _ _ _
             (fun a b H => recomp_line_flag ps syms a b H) HF).
  split; [apply flag_not_bijective_error|].
  split; [apply flag_not_bijective_structural|]. split.
  - intros x. split.
    + intros Hx. destruct (Forall2_In_r _ _ _ _ HF Hx) as (o & _ & Hline).
      apply recomp_line_cases in Hline
        as [(Hnone & _ & sym & Hsym & Heq)|(r & _ & [(p & _ & Heq & _)|(Heq & _)])];
        try discriminate.
      injection Heq as ->. simpl. exists sym. split; [exact Hsym|]. split; [reflexivity|].
      intros p Hp Hoff.
      destruct (first_recomp_Some ps o) as (q & Hq & _); [eauto|]. congruence.
    + intros (sym & Hsym & Hx & Hno).
      destruct (Forall2_elem_l _ _ _ (offset x) HF) as (e & He & Hline).
      { apply sorted_elem, all_recomp_offsets_elem. right. rewrite Hsym. eauto. }
      rewrite (recomp_line_unseen ps syms _ sym Hsym Hno) in Hline.
      injection Hline as <-. rewrite Hx. exact He.
  - intros e He. destruct (Forall2_In_r _ _ _ e HF He) as (o & _ & Hline).
    apply recomp_line_cases in Hline
      as [(_ & _ & sym & _ & ->)|(r & Hfirst & [(p & Hf & -> & _)|(-> & Hlen & _)])].
    + left. eauto.
    + right. left. eauto.
    + right. right. exists r. split; [reflexivity|].
      apply first_recomp_inv in Hfirst as (_ & p & Hp & Hr).
      split; [eauto|].
      unfold origs_of in Hlen. rewrite length_map in Hlen.
      assert (Hin : In p (List.filter (fun x => sro_eq (recomp x) r) ps)).
      { apply filter_In. split; [exact Hp|]. rewrite Hr. apply sro_eq_refl. }
      destruct (List.filter (fun x => sro_eq (recomp x) r) ps) as [|a [|b l]];
        simpl in *; [destruct Hin|congruence|lia].
Qed.

(** ** What a report without error means *)

Section Verdict.

Lemma existsb_false {A} (f : A -> bool) l x :
  existsb f l = false -> In x l -> f x = false.
Proof.
  intros H Hx. destruct (f x) eqn:E; [|reflexivity].
  assert (existsb f l = true) by (apply existsb_exists; eauto). congruence.
Qed.

Lemma sro_eq_sym x y : sro_eq x y = sro_eq y x.
Proof.
  unfold sro_eq. rewrite String.eqb_sym, Z.eqb_sym. reflexivity.
Qed.

Lemma sro_eq_trans x y z :
  sro_eq x y = true -> sro_eq y z = true -> sro_eq x z = true.
Proof.
  rewrite !sro_eq_spec. intros [? ?] [? ?]. split; congruence.
Qed.

(** With one register per original offset, an offset whose line is
    bijective has a single pair. *)
Lemma unambiguous_original_offset ps p q :
  original_ambiguous ps (offset (orig p)) = false ->
  (forall x y, In x ps -> In y ps -> offset (orig x) = offset (orig y) ->
               register (orig x) = register (orig y)) ->
  In p ps -> In q ps -> sro_eq (orig p) (orig q) = true -> p = q.
Proof.
  intros Hamb Hreg Hp Hq Hpq.
  destruct (original_line_Some ps (offset (orig p))) as [e He].
  { apply all_orig_offsets_elem. eauto. }
  apply original_line_cases in He as (r & Hfirst & [(x & Hf & _ & _)|(_ & _ & H)]);
    [|congruence].
  apply first_orig_inv in Hfirst as (Hoff & x0 & Hx0 & <-).
  assert (Hpr : sro_eq (orig p) (orig x0) = true).
  { apply sro_eq_spec. split; [apply Hreg; auto|auto]. }
  assert (Hinp : In p (List.filter (fun y => sro_eq (orig y) (orig x0)) ps)).
  { apply filter_In. auto. }
  assert (Hinq : In q (List.filter (fun y => sro_eq (orig y) (orig x0)) ps)).
  { apply filter_In. split; [exact Hq|].
    apply (sro_eq_trans _ (orig p)); [rewrite sro_eq_sym; exact Hpq|exact Hpr]. }
  rewrite Hf in Hinp, Hinq.
  destruct Hinp as [<-|[]], Hinq as [<-|[]]. reflexivity.
Qed.

Lemma unambiguous_recomp_offset ps syms p q :
  recomp_ambiguous ps syms (offset (recomp p)) = false ->
  (forall x y, In x ps -> In y ps -> offset (recomp x) = offset (recomp y) ->
               register (recomp x) = register (recomp y)) ->
  In p ps -> In q ps -> sro_eq (recomp p) (recomp q) = true -> p = q.
Proof.
  intros Hamb Hreg Hp Hq Hpq.
  destruct (recomp_line_Some ps syms (offset (recomp p))) as [e He].
  { apply all_recomp_offsets_elem. left. eauto. }
  apply recomp_line_cases in He
    as [(Hnone & _)|(r & Hfirst & [(x & Hf & _ & _)|(_ & _ & H)])]; [| |congruence].
  { destruct (first_recomp_Some ps (offset (recomp p))) as (y & Hy & _); [eauto|].
    congruence. }
  apply first_recomp_inv in Hfirst as (Hoff & x0 & Hx0 & <-).
  assert (Hpr : sro_eq (recomp p) (recomp x0) = true).
  { apply sro_eq_spec. split; [apply Hreg; auto|auto]. }
  assert (Hinp : In p (List.filter (fun y => sro_eq (recomp y) (recomp x0)) ps)).
  { apply filter_In. auto. }
  assert (Hinq : In q (List.filter (fun y => sro_eq (recomp y) (recomp x0)) ps)).
  { apply filter_In. split; [exact Hq|].
    apply (sro_eq_trans _ (recomp p)); [rewrite sro_eq_sym; exact Hpq|exact Hpr]. }
  rewrite Hf in Hinp, Hinq.
  destruct Hinp as [<-|[]], Hinq as [<-|[]]. reflexivity.
Qed.

Lemma report_flags ps syms w out w' :
  report ps syms w = Some (out, w') ->
  w' = flag_not_bijective
         (existsb (recomp_ambiguous ps syms) (sorted (all_recomp_offsets ps syms)))
         (flag_not_bijective
            (existsb (original_ambiguous ps) (sorted (all_orig_offsets ps))) w) /\
  exists lines1 lines2,
    Forall2 (fun o e => original_line ps o = Some e) (sorted (all_orig_offsets ps)) lines1 /\
    Forall2 (fun o e => recomp_line ps syms o = Some e)
            (sorted (all_recomp_offsets ps syms)) lines2 /\
    out = (HeaderOriginal :: lines1) ++ (HeaderRecomp :: lines2) ++ print_footer w'.
Proof.
  unfold report.
  destruct (print_by_original_stack_split ps w) as (lines1 & HF1 & ->).
  destruct (print_by_recomp_stack_split ps syms
              (flag_not_bijective
                 (existsb (original_ambiguous ps) (sorted (all_orig_offsets ps))) w))
    as (lines2 & HF2 & ->).
  intros [= <- <-]. split; [reflexivity|]. exists lines1, lines2. auto.
Qed.

End Verdict.

(** X18. When the report ends without the not-bijective flag, and on each
    side no offset is used with both registers, the set is a one-to-one
    correspondence: two pairs with equal original sides, or with equal
    recomp sides, are the same pair. *)
Theorem report_without_error_is_one_to_one
    (ps : StackPairs) (syms : gmap Z StackSymbol) w out w' :
  report ps syms w = Some (out, w') ->
  error_map_not_bijective w' = false ->
  (forall x y, In x ps -> In y ps -> offset (orig x) = offset (orig y) ->
               register (orig x) = register (orig y)) ->
  (forall x y, In x ps -> In y ps -> offset (recomp x) = offset (recomp y) ->
               register (recomp x) = register (recomp y)) ->
  forall p q, In p ps -> In q ps ->
    (sro_eq (orig p) (orig q) = true -> p = q) /\
    (sro_eq (recomp p) (recomp q) = true -> p = q).
Proof.
  intros Hrun Herr Horig Hrecomp p q Hp Hq.
  apply report_flags in Hrun as [-> _].
  rewrite !flag_not_bijective_error in Herr.
  apply orb_false_iff in Herr as [Herr H2]. apply orb_false_iff in Herr as [_ H1].
  split; intros Heq.
  - apply (unambiguous_original_offset ps p q); auto.
    apply (existsb_false _ _ _ H1), list_elem_of_In, sorted_elem, all_orig_offsets_elem.
    eauto.
  - apply (unambiguous_recomp_offset ps syms p q); auto.
    apply (existsb_false _ _ _ H2), list_elem_of_In, sorted_elem, all_recomp_offsets_elem.
    left. eauto.
Qed.

Lemma report_without_error_is_one_to_one_witness :
  let a := mkStackPair (sro "ebp" (-4)) (sro "ebp" (-8)) in
  let b := mkStackPair (sro "ebp" (-8)) (sro "ebp" (-4)) in
  exists out w',
    report [a; b] ∅ (mkWarnings false false) = Some (out, w') /\
    error_map_not_bijective w' = false /\
    (sro_eq (orig a) (orig b) = true -> a = b).
Proof.
  intros a b.
  destruct (report [a; b] ∅ (mkWarnings false false)) as [[out w']|] eqn:E;
    [|discriminate E].
  assert (Herr : error_map_not_bijective w' = false).
  { vm_compute in E. injection E as _ <-. reflexivity. }
  exists out, w'. split; [reflexivity|]. split; [exact Herr|].
  refine (proj1 (report_without_error_is_one_to_one [a; b] ∅ _ out w' E Herr _ _
                   a b (or_introl eq_refl) (or_intror (or_introl eq_refl)))).
  - intros x y [<-|[<-|[]]] [<-|[<-|[]]] H; reflexivity.
  - intros x y [<-|[<-|[]]] [<-|[<-|[]]] H; reflexivity.
Defined.

(** X19. The footer follows the flags the views leave: the error line is
    printed exactly when the not-bijective flag is up, and the structural
    warning exactly when the structural flag is up and the not-bijective
    flag is down, so an error hides the warning.  The reporter leaves the
    structural flag as it found it. *)
Theorem footer_prints_error_before_warning
    (ps : StackPairs) (syms : gmap Z StackSymbol) w out w' :
  report ps syms w = Some (out, w') ->
  (In ErrorNotBijective out <-> error_map_not_bijective w' = true) /\
  (In WarningStructural out <->
   structural_mismatches_present w' = true /\ error_map_not_bijective w' = false) /\
  In Legend out /\
  structural_mismatches_present w' = structural_mismatches_present w.
Proof.
  intros Hrun. apply report_flags in Hrun as (Hw & lines1 & lines2 & HF1 & HF2 & ->).
  assert (H1 : forall e, In e lines1 ->
                 e <> ErrorNotBijective /\ e <> WarningStructural).
  { intros e He. destruct (Forall2_In_r _ _ _ e HF1 He) as (o & _ & Hline).
    apply original_line_cases in Hline as (r & _ & [(p & _ & -> & _)|(-> & _)]);
      split; discriminate. }
  assert (H2 : forall e, In e lines2 ->
                 e <> ErrorNotBijective /\ e <> WarningStructural).
  { intros e He. destruct (Forall2_In_r _ _ _ e HF2 He) as (o & _ & Hline).
    apply recomp_line_cases in Hline
      as [(_ & _ & sym & _ & ->)|(r & _ & [(p & _ & -> & _)|(-> & _)])];
      split; discriminate. }
  assert (Hfooter : forall e, (e = ErrorNotBijective \/ e = WarningStructural) ->
                      (In e ((HeaderOriginal :: lines1) ++ (HeaderRecomp :: lines2) ++
                             print_footer w') <-> In e (print_footer w'))).
  { intros e He. rewrite !in_app_iff. simpl. split; [|auto].
    intros [[H|H]|[[H|H]|H]]; try exact H.
    - destruct He; congruence.
    - destruct (H1 e H); destruct He; contradiction.
    - destruct He; congruence.
    - destruct (H2 e H); destruct He; contradiction. }
  split; [|split; [|split]].
  - rewrite Hfooter by auto. unfold print_footer.
    destruct (error_map_not_bijective w'), (structural_mismatches_present w'); simpl;
      intuition congruence.
  - rewrite Hfooter by auto. unfold print_footer.
    destruct (error_map_not_bijective w'), (structural_mismatches_present w'); simpl;
      intuition congruence.
  - rewrite !in_app_iff. right. right. left. reflexivity.
  - rewrite Hw, !flag_not_bijective_structural. reflexivity.
Qed.

Lemma footer_prints_error_before_warning_witness :
  let ps := [mkStackPair (sro "ebp" (-4)) (sro "ebp" (-4));
             mkStackPair (sro "ebp" (-4)) (sro "ebp" (-8))] in
  exists out w',
    report ps ∅ (mkWarnings true false) = Some (out, w') /\
    In ErrorNotBijective out /\ ~ In WarningStructural out.
Proof.
  intros ps.
  destruct (report ps ∅ (mkWarnings true false)) as [[out w']|] eqn:E; [|discriminate E].
  exists out, w'. split; [reflexivity|].
  destruct (footer_prints_error_before_warning ps ∅ _ out w' E) as (He & Hw & _).
  assert (Herr : error_map_not_bijective w' = true).
  { vm_compute in E. injection E as _ <-. reflexivity. }
  split; [apply He, Herr|].
  intros H. apply Hw in H as [_ H]. congruence.
Defined.

(** ** Writing a reference and reading it back *)

Section RoundTrip.

Ltac eval_digit :=
  match goal with
  | |- context [hex_digit_value ?c] =>
      let v := eval vm_compute in (hex_digit_value c) in
      change (hex_digit_value c) with v
  | |- context [is_hex ?c] =>
      let v := eval vm_compute in (is_hex c) in
      change (is_hex c) with v
  end.

(** The digits written for a number are read back as that number. *)
Lemma hex_digits_of_uint d d' :
  hex_digits_value (Z.of_N (HexadecimalPos.Unsigned.of_lu d')) (NilEmpty.string_of_uint d) =
  Some (Z.of_N (HexadecimalPos.Unsigned.of_lu (Hexadecimal.revapp d d'))).
Proof.
  revert d'. induction d; intros d'; [reflexivity|..];
    cbn [NilEmpty.string_of_uint hex_digits_value Hexadecimal.revapp];
    eval_digit; cbv iota beta; rewrite <- IHd; f_equal;
    cbn [HexadecimalPos.Unsigned.of_lu]; lia.
Qed.

Lemma all_hex_of_uint d : all_hex (NilEmpty.string_of_uint d) = true.
Proof.
  induction d; [reflexivity|..];
    cbn [NilEmpty.string_of_uint all_hex]; eval_digit; exact IHd.
Qed.

Lemma hex_text_of_N n :
  let digits := NilZero.string_of_uint (N.to_hex_uint n) in
  digits <> EmptyString /\ all_hex digits = true /\
  hex_digits_value 0 digits = Some (Z.of_N n).
Proof.
  intros digits.
  assert (Hnil : N.to_hex_uint n <> Hexadecimal.Nil).
  { destruct n; [discriminate|apply HexadecimalPos.Unsigned.to_uint_nonnil]. }
  assert (Hd : digits = NilEmpty.string_of_uint (N.to_hex_uint n)).
  { unfold digits, NilZero.string_of_uint. destruct (N.to_hex_uint n); congruence. }
  rewrite Hd. split; [|split].
  - destruct (N.to_hex_uint n); [congruence|discriminate..].
  - apply all_hex_of_uint.
  - change 0 with (Z.of_N (HexadecimalPos.Unsigned.of_lu Hexadecimal.Nil)).
    rewrite hex_digits_of_uint. f_equal. f_equal.
    change (Hexadecimal.revapp (N.to_hex_uint n) Hexadecimal.Nil)
      with (Hexadecimal.rev (N.to_hex_uint n)).
    rewrite <- HexadecimalPos.Unsigned.of_uint_alt.
    apply HexadecimalN.Unsigned.of_to.
Qed.

(** [f"{n:#04x}"] is the prefix [0x] and lower-case digits, two at least,
    whose value in base 16 is [n]. *)
Lemma format_hex_04_digits n :
  0 <= n ->
  exists d, format_hex_04 n = String "0" (String "x" d) /\
            (2 <= String.length d)%nat /\ all_hex d = true /\
            hex_digits_value 0 d = Some n.
Proof.
  intros Hn. unfold format_hex_04.
  destruct (hex_text_of_N (Z.to_N n)) as (Hne & Hall & Hv).
  rewrite Z2N.id in Hv by exact Hn.
  set (digits := NilZero.string_of_uint (N.to_hex_uint (Z.to_N n))) in *.
  destruct (Nat.ltb_spec (String.length digits) 2) as [Hlt|Hge].
  - exists (String "0" digits). split; [reflexivity|].
    destruct digits as [|c [|c' ds]]; [congruence| |simpl in Hlt; lia].
    split; [simpl; lia|]. split; [exact Hall|exact Hv].
  - exists digits. split; [reflexivity|]. auto.
Qed.

Lemma append_assoc a b c :
  String.append (String.append a b) c = String.append a (String.append b c).
Proof.
  induction a as [|x a IH]; [reflexivity|].
  rewrite !append_String, IH. reflexivity.
Qed.

Lemma length_nonempty d : (2 <= String.length d)%nat -> d <> EmptyString.
Proof. destruct d; simpl; [lia|discriminate]. Qed.

End RoundTrip.

(** X20. The text [__str__] writes for a reference with register [ebp] or
    [esp] is read back by the extractor as the same register and offset,
    without symbol: the offset is written in hexadecimal after [+] when it
    is positive and as its magnitude after [-] otherwise, and a symbol
    name written behind it does not disturb the reading. *)
Theorem str_is_read_back_by_the_extractor x :
  register x = "ebp" \/ register x = "esp" ->
  extract_stack_offset_from_instruction (StackRegisterOffset_str x) =
  Some (mkStackRegisterOffset (register x) (offset x) None).
Proof.
  intros Hreg. unfold StackRegisterOffset_str.
  set (post := match symbol x with
               | Some sym => String.append "  " (name sym)
               | None => EmptyString
               end).
  assert (Hpost : not_followed_by_hex post = true).
  { unfold post. destruct (symbol x); reflexivity. }
  assert (Hr : exists r, register x = String "e" (String r (String "p" EmptyString)) /\
                         is_s_or_b r = true).
  { destruct Hreg as [->| ->]; eexists; split; reflexivity. }
  destruct Hr as (r & -> & Hr).
  destruct (Z.ltb_spec 0 (offset x)) as [Hpos|Hneg].
  - destruct (format_hex_04_digits (offset x)) as (d & -> & Hlen & Hall & Hv); [lia|].
    rewrite !append_String, !append_empty, !append_String.
    pose proof (extract_literal_in_line "" r "+" d post (offset x) eq_refl Hr eq_refl
                  (length_nonempty d Hlen) Hall Hpost Hv) as H.
    rewrite append_empty in H. exact H.
  - destruct (format_hex_04_digits (- offset x)) as (d & -> & Hlen & Hall & Hv); [lia|].
    rewrite !append_String, !append_empty, !append_String.
    pose proof (extract_literal_in_line "" r "-" d post (- offset x) eq_refl Hr eq_refl
                  (length_nonempty d Hlen) Hall Hpost Hv) as H.
    rewrite append_empty in H. rewrite H.
    change (Ascii.eqb "-" "+") with false. cbv iota.
    rewrite Z.opp_involutive. reflexivity.
Qed.

Lemma str_is_read_back_by_the_extractor_witness :
  let x := mkStackRegisterOffset "ebp" (-16) (Some (mkStackSymbol "m_flags" "T_INT4")) in
  StackRegisterOffset_str x = "ebp - 0x10  m_flags" /\
  extract_stack_offset_from_instruction (StackRegisterOffset_str x) = Some (sro "ebp" (-16)).
Proof.
  intros x. split; [reflexivity|].
  exact (str_is_read_back_by_the_extractor x (or_introl eq_refl)).
Defined.

(** ** The collected set *)

Section Collection.

Lemma pair_eq_sym p q : pair_eq p q = pair_eq q p.
Proof. unfold pair_eq. rewrite (sro_eq_sym (orig p)), (sro_eq_sym (recomp p)). reflexivity. Qed.

Lemma set_contains_app p s t :
  set_contains p (s ++ t) = (set_contains p s || set_contains p t)%bool.
Proof. apply existsb_app. Qed.

Lemma distinct_pairs_snoc s p :
  distinct_pairs s = true -> set_contains p s = false ->
  distinct_pairs (s ++ [p]) = true.
Proof.
  induction s as [|a s IH]; intros Hd Hp; [reflexivity|].
  cbn [distinct_pairs app] in *. apply andb_true_iff in Hd as [Ha Hd].
  unfold set_contains in Hp. cbn [existsb] in Hp.
  apply orb_false_iff in Hp as [Hpa Hp].
  rewrite set_contains_app. unfold set_contains at 2. cbn [existsb].
  rewrite (pair_eq_sym a p), Hpa. simpl. rewrite orb_false_r, Ha. simpl.
  apply IH; assumption.
Qed.

Lemma set_add_distinct p s :
  distinct_pairs s = true -> distinct_pairs (set_add p s) = true.
Proof.
  intros H. unfold set_add. destruct (set_contains p s) eqn:E; [exact H|].
  apply distinct_pairs_snoc; assumption.
Qed.

Lemma set_union_distinct s t :
  distinct_pairs s = true -> distinct_pairs (set_union s t) = true.
Proof.
  unfold set_union. revert s. induction t as [|p t IH]; intros s H; [exact H|].
  simpl. apply IH, set_add_distinct, H.
Qed.

Lemma set_union_In q s t : In q (set_union s t) -> In q s \/ In q t.
Proof.
  unfold set_union. revert s. induction t as [|p t IH]; intros s H; [auto|].
  simpl in H. apply IH in H as [H|H]; [|right; right; exact H].
  apply set_add_In in H as [H|[_ ->]]; [auto|right; left; reflexivity].
Qed.

Lemma collect_fold_spec ds acc :
  distinct_pairs (fst acc) = true ->
  distinct_pairs (fst (fold_left collect_diff ds acc)) = true /\
  (forall p, In p (fst (fold_left collect_diff ds acc)) ->
             In p (fst acc) \/ exists d, In d ds /\ In p (region_pairs d)) /\
  snd (fold_left collect_diff ds acc) =
    flag_structural (existsb region_mismatch ds) (snd acc).
Proof.
  revert acc. induction ds as [|d ds IH]; intros acc Hd.
  - simpl. auto.
  - cbn [fold_left]. rewrite collect_diff_split.
    destruct (IH (set_union (fst acc) (region_pairs d),
                  flag_structural (region_mismatch d) (snd acc)))
      as (Hdist & Hfrom & Hflag).
    { apply set_union_distinct, Hd. }
    split; [exact Hdist|]. split.
    + intros p Hp. destruct (Hfrom p Hp) as [H|(d' & Hd' & Hp')].
      * apply set_union_In in H as [H|H]; [auto|].
        right. exists d. split; [left; reflexivity|exact H].
      * right. exists d'. split; [right; exact Hd'|exact Hp'].
    + rewrite Hflag. cbn [snd existsb].
      destruct (region_mismatch d), (existsb region_mismatch ds); reflexivity.
Qed.

End Collection.

(** X21. The set collected for a function is the union of what its regions
    contribute: every pair of the set was found by a region of the diff,
    every pair found by a region is in the set, and a pair found more than
    once is held once.  The structural flag is raised exactly when some
    region raised it; the not-bijective flag is not touched. *)
Theorem collected_set_is_union_of_regions udiff w :
  (forall p, In p (fst (collect_stack_pairs udiff w)) ->
             exists block d, In block udiff /\ In d (snd block) /\
                             In p (fst (analyze_diff d w))) /\
  (forall block d p, In block udiff -> In d (snd block) ->
                     In p (fst (analyze_diff d w)) ->
                     set_contains p (fst (collect_stack_pairs udiff w)) = true) /\
  distinct_pairs (fst (collect_stack_pairs udiff w)) = true /\
  structural_mismatches_present (snd (collect_stack_pairs udiff w)) =
    (structural_mismatches_present w ||
     existsb (fun d => structural_mismatches_present
                         (snd (analyze_diff d (mkWarnings false false))))
             (concat (map snd udiff)))%bool /\
  error_map_not_bijective (snd (collect_stack_pairs udiff w)) = error_map_not_bijective w.
Proof.
  rewrite collect_stack_pairs_flat.
  destruct (collect_fold_spec (concat (map snd udiff)) ([], w) eq_refl)
    as (Hdist & Hfrom & Hflag).
  split; [|split; [|split; [exact Hdist|]]].
  - intros p Hp. destruct (Hfrom p Hp) as [[]|(d & Hd & Hpd)].
    apply in_concat in Hd as (ds & Hds & Hd).
    apply in_map_iff in Hds as (block & <- & Hblock).
    exists block, d. split; [exact Hblock|]. split; [exact Hd|].
    rewrite analyze_diff_split. exact Hpd.
  - intros block d p Hb Hd Hp. apply (collect_region _ _ d).
    + apply in_concat. exists (snd block). split; [apply in_map, Hb|exact Hd].
    + rewrite analyze_diff_split in Hp. exact Hp.
  - rewrite Hflag. cbn [snd].
    change (fun d => structural_mismatches_present
                       (snd (analyze_diff d (mkWarnings false false))))
      with region_mismatch.
    destruct (existsb region_mismatch (concat (map snd udiff))), w as [[] b];
      split; reflexivity.
Qed.

(** ** Enrichment again *)

(** X22. Enriching an enriched set changes nothing, and after enrichment
    every [ebp] recomp side carries what the table holds at its offset,
    so two recomp sides with the same [ebp] offset carry the same
    symbol. *)
Theorem enrichment_is_idempotent (syms : gmap Z StackSymbol) (ps : StackPairs) :
  enrich syms (enrich syms ps) = enrich syms ps /\
  (forall p, In p (enrich syms ps) -> register (recomp p) = "ebp" ->
             symbol (recomp p) = syms !! offset (recomp p)) /\
  (forall p q, In p (enrich syms ps) -> In q (enrich syms ps) ->
               register (recomp p) = "ebp" -> register (recomp q) = "ebp" ->
               offset (recomp p) = offset (recomp q) ->
               symbol (recomp p) = symbol (recomp q)).
Proof.
  assert (Hsym : forall p, In p (enrich syms ps) -> register (recomp p) = "ebp" ->
                           symbol (recomp p) = syms !! offset (recomp p)).
  { intros p Hp Hr. apply in_map_iff in Hp as (x & <- & _).
    unfold enrich_pair in *.
    destruct (String.eqb (register (recomp x)) "ebp") eqn:E; [reflexivity|].
    apply String.eqb_neq in E. contradiction. }
  split; [|split; [exact Hsym|]].
  - unfold enrich. rewrite map_map. apply map_ext. intros p.
    unfold enrich_pair at 2.
    destruct (String.eqb (register (recomp p)) "ebp") eqn:E.
    + unfold enrich_pair. simpl. rewrite E. reflexivity.
    + unfold enrich_pair. rewrite E. reflexivity.
  - intros p q Hp Hq Hrp Hrq Hoff.
    rewrite (Hsym p Hp Hrp), (Hsym q Hq Hrq), Hoff. reflexivity.
Qed.

(** ** Hash and equality of a reference *)

(** X23. Two references that are equal (same register and offset) have
    the same hash, whatever the hash of strings is; the symbol enters
    neither the equality nor the hash, so attaching a symbol to the recomp
    side of a pair held in a set leaves the pair equal to itself and its
    recomp side with the hash it was stored under. *)
Theorem hash_agrees_with_equality (str_hash : string -> Z) a b :
  (sro_eq a b = true ->
   StackRegisterOffset_hash str_hash a = StackRegisterOffset_hash str_hash b) /\
  (forall (syms : gmap Z StackSymbol) p,
      pair_eq (enrich_pair syms p) p = true /\
      StackRegisterOffset_hash str_hash (recomp (enrich_pair syms p)) =
      StackRegisterOffset_hash str_hash (recomp p) /\
      orig (enrich_pair syms p) = orig p).
Proof.
  split.
  - intros H. apply sro_eq_spec in H as [Hr Ho].
    unfold StackRegisterOffset_hash. rewrite Hr, Ho. reflexivity.
  - intros syms p. unfold enrich_pair.
    destruct (String.eqb (register (recomp p)) "ebp").
    + split; [|split; reflexivity].
      unfold pair_eq. simpl. rewrite sro_eq_refl. unfold sro_eq. simpl.
      rewrite String.eqb_refl, Z.eqb_refl. reflexivity.
    + split; [apply pair_eq_refl|split; reflexivity].
Qed.

(** ** Addresses *)

Section Addresses.

Lemma analyze_both_texts lines lines' acc :
  map (fun l => snd (fst l)) lines = map (fun l => snd (fst l)) lines' ->
  analyze_both lines acc = analyze_both lines' acc.
Proof.
  revert lines' acc. induction lines as [|l lines IH]; intros [|l' lines'] acc H;
    try discriminate; [reflexivity|].
  injection H as Hl H. cbn [analyze_both]. rewrite Hl.
  destruct (extract_stack_offset_from_instruction (snd (fst l'))); apply IH, H.
Qed.

Lemma analyze_zip_texts ol rl ol' rl' acc :
  map snd ol = map snd ol' -> map snd rl = map snd rl' ->
  analyze_zip (combine ol rl) acc = analyze_zip (combine ol' rl') acc.
Proof.
  revert rl ol' rl' acc.
  induction ol as [|o ol IH]; intros rl [|o' ol'] rl' acc Ho Hr; try discriminate.
  - reflexivity.
  - destruct rl as [|r rl], rl' as [|r' rl']; try discriminate; [reflexivity|].
    injection Ho as Ho1 Ho. injection Hr as Hr1 Hr.
    cbn [combine analyze_zip]. rewrite Ho1, Hr1.
    destruct (extract_stack_offset_from_instruction (snd o'));
      [destruct (extract_stack_offset_from_instruction (snd r')); [|reflexivity]|];
      apply IH; assumption.
Qed.

End Addresses.

(** X24. What a region contributes depends on the instruction texts
    only: two aligned regions with the same texts, or two divergent
    regions with the same original and the same recomp texts, give the
    same pairs and the same flags, whatever the addresses of their
    lines. *)
Theorem addresses_play_no_part w :
  (forall both both',
      map (fun l => snd (fst l)) both = map (fun l => snd (fst l)) both' ->
      analyze_diff (MatchingBlock both) w = analyze_diff (MatchingBlock both') w) /\
  (forall ol rl ol' rl',
      map snd ol = map snd ol' -> map snd rl = map snd rl' ->
      analyze_diff (MismatchingBlock ol rl) w = analyze_diff (MismatchingBlock ol' rl') w).
Proof.
  split.
  - intros both both' H. unfold analyze_diff.
    rewrite (analyze_both_texts both both' [] H). reflexivity.
  - intros ol rl ol' rl' Ho Hr. unfold analyze_diff.
    assert (Hlo : length ol = length ol').
    { rewrite <- (length_map snd ol), Ho. apply length_map. }
    assert (Hlr : length rl = length rl').
    { rewrite <- (length_map snd rl), Hr. apply length_map. }
    rewrite Hlo, Hlr, (analyze_zip_texts ol rl ol' rl' [] Ho Hr). reflexivity.
Qed.

(** ** A function without divergent regions *)

Section CleanReport.

Lemma distinct_pairs_spec s :
  distinct_pairs s = true ->
  NoDup s /\ forall p q, In p s -> In q s -> pair_eq p q = true -> p = q.
Proof.
  induction s as [|a s IH]; intros H.
  - split; [constructor|]. intros p q [].
  - cbn [distinct_pairs] in H. apply andb_true_iff in H as [Ha Hs].
    apply negb_true_iff in Ha. destruct (IH Hs) as [Hnd Heq].
    assert (Hnot : forall x, In x s -> pair_eq a x = false).
    { intros x Hx. unfold set_contains in Ha. apply (existsb_false _ _ _ Ha Hx). }
    split.
    + constructor; [|exact Hnd]. intros Hin%list_elem_of_In.
      specialize (Hnot a Hin). rewrite pair_eq_refl in Hnot. discriminate.
    + intros p q [<-|Hp] [<-|Hq] Hpq; auto.
      * rewrite (Hnot q Hq) in Hpq. discriminate.
      * rewrite pair_eq_sym, (Hnot p Hp) in Hpq. discriminate.
Qed.

Lemma pair_eq_enrich syms p q :
  pair_eq (enrich_pair syms p) (enrich_pair syms q) = pair_eq p q.
Proof.
  unfold pair_eq, sro_eq, enrich_pair.
  destruct (String.eqb (register (recomp p)) "ebp"),
           (String.eqb (register (recomp q)) "ebp"); reflexivity.
Qed.

Lemma at_most_one {A} (l : list A) :
  NoDup l -> (forall x y, In x l -> In y l -> x = y) -> (length l <= 1)%nat.
Proof.
  intros Hnd Heq. destruct l as [|a [|b l]]; simpl; try lia.
  apply NoDup_cons in Hnd as [Hna _]. exfalso. apply Hna.
  rewrite (Heq a b); [left|left; reflexivity|right; left; reflexivity].
Qed.

Lemma NoDup_filter_bool {A} (f : A -> bool) l : NoDup l -> NoDup (List.filter f l).
Proof.
  induction 1 as [|a l Ha Hl IH]; simpl; [constructor|].
  destruct (f a); [|exact IH]. constructor; [|exact IH].
  intros Hin%list_elem_of_In. apply filter_In in Hin as [Hin _].
  apply Ha, list_elem_of_In, Hin.
Qed.

Variable ps : StackPairs.
Hypothesis ps_NoDup : NoDup ps.
Hypothesis ps_set : forall p q, In p ps -> In q ps -> pair_eq p q = true -> p = q.
Hypothesis ps_exact : forall p, In p ps -> sro_eq (orig p) (recomp p) = true.

Lemma exact_set_original_filter r :
  (length (List.filter (fun x => sro_eq (orig x) r) ps) <= 1)%nat.
Proof.
  apply at_most_one; [apply NoDup_filter_bool, ps_NoDup|].
  intros x y Hx Hy. apply filter_In in Hx as [Hx Hxr]. apply filter_In in Hy as [Hy Hyr].
  apply ps_set; [exact Hx|exact Hy|]. apply pair_eq_spec.
  assert (Hxy : sro_eq (orig x) (orig y) = true).
  { apply (sro_eq_trans _ r); [exact Hxr|rewrite sro_eq_sym; exact Hyr]. }
  split; [exact Hxy|].
  apply (sro_eq_trans _ (orig x)); [rewrite sro_eq_sym; apply ps_exact, Hx|].
  apply (sro_eq_trans _ (orig y)); [exact Hxy|apply ps_exact, Hy].
Qed.

Lemma exact_set_recomp_filter r :
  (length (List.filter (fun x => sro_eq (recomp x) r) ps) <= 1)%nat.
Proof.
  apply at_most_one; [apply NoDup_filter_bool, ps_NoDup|].
  intros x y Hx Hy. apply filter_In in Hx as [Hx Hxr]. apply filter_In in Hy as [Hy Hyr].
  apply ps_set; [exact Hx|exact Hy|]. apply pair_eq_spec.
  assert (Hxy : sro_eq (recomp x) (recomp y) = true).
  { apply (sro_eq_trans _ r); [exact Hxr|rewrite sro_eq_sym; exact Hyr]. }
  split; [|exact Hxy].
  apply (sro_eq_trans _ (recomp x)); [apply ps_exact, Hx|].
  apply (sro_eq_trans _ (recomp y)); [exact Hxy|rewrite sro_eq_sym; apply ps_exact, Hy].
Qed.

Lemma exact_set_original_line o e :
  original_line ps o = Some e ->
  original_ambiguous ps o = false /\ exists l r, e = BijectiveMatch l r true.
Proof.
  intros H.
  apply original_line_cases in H as (r & Hfirst & [(p & Hf & -> & Hamb)|(_ & Hlen & _)]).
  - split; [exact Hamb|]. eexists _, _. f_equal.
    assert (Hin : In p (List.filter (fun x => sro_eq (orig x) r) ps))
      by (rewrite Hf; left; reflexivity).
    apply filter_In in Hin as [Hp Hpr].
    apply (sro_eq_trans _ (orig p)); [rewrite sro_eq_sym; exact Hpr|apply ps_exact, Hp].
  - exfalso. apply Hlen. unfold recomps_of. rewrite length_map.
    pose proof (exact_set_original_filter r) as Hle.
    apply first_orig_inv in Hfirst as (_ & p & Hp & Hr).
    assert (Hin : In p (List.filter (fun x => sro_eq (orig x) r) ps)).
    { apply filter_In. split; [exact Hp|]. rewrite Hr. apply sro_eq_refl. }
    destruct (List.filter (fun x => sro_eq (orig x) r) ps) as [|a [|b l]];
      simpl in *; [destruct Hin|reflexivity|lia].
Qed.

Lemma exact_set_recomp_line syms o e :
  recomp_line ps syms o = Some e ->
  recomp_ambiguous ps syms o = false /\
  ((exists x, e = NotSeen x) \/ exists l r, e = BijectiveMatch l r true).
Proof.
  intros H.
  apply recomp_line_cases in H
    as [(_ & Hamb & sym & _ & ->)|(r & Hfirst & [(p & Hf & -> & Hamb)|(_ & Hlen & _)])].
  - split; [exact Hamb|]. left. eauto.
  - split; [exact Hamb|]. right. eexists _, _. f_equal.
    assert (Hin : In p (List.filter (fun x => sro_eq (recomp x) r) ps))
      by (rewrite Hf; left; reflexivity).
    apply filter_In in Hin as [Hp Hpr].
    apply (sro_eq_trans _ (recomp p)); [apply ps_exact, Hp|exact Hpr].
  - exfalso. apply Hlen. unfold origs_of. rewrite length_map.
    pose proof (exact_set_recomp_filter r) as Hle.
    apply first_recomp_inv in Hfirst as (_ & p & Hp & Hr).
    assert (Hin : In p (List.filter (fun x => sro_eq (recomp x) r) ps)).
    { apply filter_In. split; [exact Hp|]. rewrite Hr. apply sro_eq_refl. }
    destruct (List.filter (fun x => sro_eq (recomp x) r) ps) as [|a [|b l]];
      simpl in *; [destruct Hin|reflexivity|lia].
Qed.

Lemma existsb_all_false {A} (f : A -> bool) l :
  (forall x, In x l -> f x = false) -> existsb f l = false.
Proof.
  induction l as [|a l IH]; intros H; [reflexivity|].
  simpl. rewrite (H a) by (left; reflexivity). apply IH.
  intros x Hx. apply H. right. exact Hx.
Qed.

Lemma exact_set_report syms w out w' :
  report ps syms w = Some (out, w') ->
  w' = w /\
  forall e, In e out ->
    e = HeaderOriginal \/ e = HeaderRecomp \/ In e (print_footer w) \/
    (exists x, e = NotSeen x) \/ exists l r, e = BijectiveMatch l r true.
Proof.
  intros Hrun. apply report_flags in Hrun as (Hw & lines1 & lines2 & HF1 & HF2 & ->).
  assert (H1 : existsb (original_ambiguous ps) (sorted (all_orig_offsets ps)) = false).
  { apply existsb_all_false. intros o Ho.
    destruct (original_line_Some ps o) as [e He];
      [apply sorted_elem, list_elem_of_In, Ho|].
    apply (exact_set_original_line o e He). }
  assert (H2 : existsb (recomp_ambiguous ps syms) (sorted (all_recomp_offsets ps syms))
               = false).
  { apply existsb_all_false. intros o Ho.
    destruct (recomp_line_Some ps syms o) as [e He];
      [apply sorted_elem, list_elem_of_In, Ho|].
    apply (exact_set_recomp_line syms o e He). }
  rewrite H1, H2 in Hw. simpl in Hw. subst w'. split; [reflexivity|].
  intros e He. rewrite !in_app_iff in He. simpl in He.
  destruct He as [[<-|He]|[[<-|He]|He]]; auto.
  - destruct (Forall2_In_r _ _ _ e HF1 He) as (o & _ & Hline).
    apply exact_set_original_line in Hline as [_ H]. do 4 right. exact H.
  - destruct (Forall2_In_r _ _ _ e HF2 He) as (o & _ & Hline).
    apply exact_set_recomp_line in Hline as [_ [H|H]].
    + do 3 right. left. exact H.
    + do 4 right. exact H.
Qed.

End CleanReport.

Section AlignedOnly.

Lemma collected_aligned_only ds acc :
  (forall d, In d ds -> exists both, d = MatchingBlock both) ->
  Forall (fun p => orig p = recomp p) (fst acc) ->
  Forall (fun p => orig p = recomp p) (fst (fold_left collect_diff ds acc)) /\
  snd (fold_left collect_diff ds acc) = snd acc.
Proof.
  revert acc. induction ds as [|d ds IH]; intros acc Hds Hacc; [auto|].
  cbn [fold_left].
  destruct (Hds d) as [both ->]; [left; reflexivity|].
  destruct (IH (collect_diff acc (MatchingBlock both))) as [HF Hw].
  - intros d' Hd'. apply Hds. right. exact Hd'.
  - unfold collect_diff. simpl. apply set_union_Forall; [exact Hacc|].
    apply (aligned_region_Forall both (snd acc)).
  - split; [exact HF|]. rewrite Hw. reflexivity.
Qed.

Lemma collected_set_flat_facts udiff :
  (forall block d, In block udiff -> In d (snd block) ->
                   exists both, d = MatchingBlock both) ->
  distinct_pairs (fst (collect_stack_pairs udiff (mkWarnings false false))) = true /\
  Forall (fun p => orig p = recomp p)
         (fst (collect_stack_pairs udiff (mkWarnings false false))) /\
  snd (collect_stack_pairs udiff (mkWarnings false false)) = mkWarnings false false.
Proof.
  intros Haligned. rewrite collect_stack_pairs_flat.
  destruct (collect_fold_spec (concat (map snd udiff)) ([], mkWarnings false false) eq_refl)
    as (Hdist & _ & _).
  destruct (collected_aligned_only (concat (map snd udiff)) ([], mkWarnings false false))
    as [HF Hw].
  - intros d Hd. apply in_concat in Hd as (ds & Hds & Hd).
    apply in_map_iff in Hds as (block & <- & Hblock). eauto.
  - constructor.
  - auto.
Qed.

Lemma NoDup_map_on {A B} (f : A -> B) l :
  (forall x y, In x l -> In y l -> f x = f y -> x = y) ->
  NoDup l -> NoDup (map f l).
Proof.
  intros Hinj Hnd. induction Hnd as [|a l Ha Hl IH]; simpl; [constructor|].
  constructor.
  - intros Hin%list_elem_of_In. apply in_map_iff in Hin as (x & Hfx & Hx).
    apply Ha, list_elem_of_In.
    rewrite <- (Hinj x a); [exact Hx|right; exact Hx|left; reflexivity|exact Hfx].
  - apply IH. intros x y Hx Hy. apply Hinj; right; assumption.
Qed.

End AlignedOnly.

(** X25. A function whose diff holds aligned regions only is reported
    clean: whatever the iteration order of the set, and once the symbol
    locations decode, [compare_function_stacks] returns with both flags
    down, and every line it prints for a pair is a bijective line marked
    exact; the other lines are the two headers, the lines "not seen" of
    the symbol table and the legend. *)
Theorem aligned_only_diff_is_reported_clean
    (order : StackPairs -> StackPairs) udiff fn_symbol syms :
  (forall l, Permutation (order l) l) ->
  (forall block d, In block udiff -> In d (snd block) ->
                   exists both, d = MatchingBlock both) ->
  build_stack_symbols (stack_symbols_of fn_symbol) ∅ = Some syms ->
  exists out,
    compare_function_stacks order udiff fn_symbol = Some (out, mkWarnings false false) /\
    forall e, In e out ->
      e = HeaderOriginal \/ e = HeaderRecomp \/ e = Legend \/
      (exists x, e = NotSeen x) \/ exists l r, e = BijectiveMatch l r true.
Proof.
  intros Horder Haligned Hsyms.
  destruct (compare_function_stacks_returns order udiff fn_symbol syms Hsyms)
    as (out & w' & Hrun).
  exists out. unfold compare_function_stacks in *.
  destruct (collected_set_flat_facts udiff) as (Hdist & Hexact & Hw).
  { exact Haligned. }
  destruct (collect_stack_pairs udiff (mkWarnings false false)) as [collected w0].
  simpl in Hdist, Hexact, Hw. subst w0. rewrite Hsyms in Hrun |- *.
  apply distinct_pairs_spec in Hdist as [Hnd Hset].
  assert (Hin : forall p, In p (enrich syms (order collected)) ->
                          exists x, In x collected /\ p = enrich_pair syms x).
  { intros p Hp. apply in_map_iff in Hp as (x & <- & Hx).
    exists x. split; [apply (Permutation_in _ (Horder collected)), Hx|reflexivity]. }
  assert (HN : NoDup (enrich syms (order collected))).
  { apply NoDup_map_on.
    - intros x y Hx Hy Hxy. apply Hset.
      + apply (Permutation_in _ (Horder collected)), Hx.
      + apply (Permutation_in _ (Horder collected)), Hy.
      + rewrite <- (pair_eq_enrich syms), Hxy. apply pair_eq_refl.
    - rewrite (Horder collected). exact Hnd. }
  assert (HS : forall p q, In p (enrich syms (order collected)) ->
                           In q (enrich syms (order collected)) ->
                           pair_eq p q = true -> p = q).
  { intros p q Hp Hq Hpq.
    destruct (Hin p Hp) as (x & Hx & ->). destruct (Hin q Hq) as (y & Hy & ->).
    rewrite pair_eq_enrich in Hpq. rewrite (Hset x y Hx Hy Hpq). reflexivity. }
  assert (HE : forall p, In p (enrich syms (order collected)) ->
                         sro_eq (orig p) (recomp p) = true).
  { intros p Hp. destruct (Hin p Hp) as (x & Hx & ->).
    rewrite List.Forall_forall in Hexact. specialize (Hexact x Hx).
    unfold enrich_pair. destruct (String.eqb (register (recomp x)) "ebp").
    - unfold sro_eq. simpl. rewrite Hexact, String.eqb_refl, Z.eqb_refl. reflexivity.
    - rewrite Hexact. apply sro_eq_refl. }
  destruct (exact_set_report (enrich syms (order collected)) HN HS HE syms
              (mkWarnings false false) out w' Hrun) as [-> Hlines].
  split; [exact Hrun|]. intros e He.
  destruct (Hlines e He) as [H|[H|[H|H]]]; auto.
  simpl in H. destruct H as [<-|[]]. auto.
Qed.

Lemma aligned_only_diff_is_reported_clean_witness :
  let udiff := [("@@ -0x1000,2 +0x2000,2 @@",
                 [MatchingBlock [("0x1000", "mov eax, [ebp - 0x8]", "0x2000");
                                 ("0x1003", "lea ecx, [esp + 0x10]", "0x2003")]])] in
  let fn_symbol :=
    mkSymbolsEntry [mkStackOrRegisterSymbol "S_BPREL32" "[FFFFFFF8]" "T_INT4" "count"] in
  exists out,
    compare_function_stacks (fun collected => collected) udiff fn_symbol =
    Some (out, mkWarnings false false).
Proof.
  intros udiff fn_symbol.
  destruct (aligned_only_diff_is_reported_clean (fun collected => collected) udiff fn_symbol
              {[ -8 := mkStackSymbol "count" "T_INT4" ]})
    as (out & Hrun & _).
  - intros l. apply Permutation_refl.
  - intros block d [<-|[]] [<-|[]]. eauto.
  - reflexivity.
  - exists out. exact Hrun.
Defined.

(** X26. Only the sequence of the regions matters to
    [compare_function_stacks]: the headers of the hunks and the way the
    regions are grouped into hunks play no part in its result. *)
Theorem hunks_play_no_part (order : StackPairs -> StackPairs) udiff udiff' fn_symbol :
  concat (map snd udiff) = concat (map snd udiff') ->
  compare_function_stacks order udiff fn_symbol =
  compare_function_stacks order udiff' fn_symbol.
Proof.
  intros H. unfold compare_function_stacks.
  rewrite !collect_stack_pairs_flat, H. reflexivity.
Qed.

Lemma hunks_play_no_part_witness :
  let a := MatchingBlock [("0x1000", "mov eax, [ebp - 0x8]", "0x2000")] in
  let b := MismatchingBlock [("0x1003", "mov ecx, [ebp - 0x4]")]
                            [("0x2003", "mov ecx, [ebp - 0xc]")] in
  compare_function_stacks (fun collected => collected)
    [("@@ -0x1000,1 +0x2000,1 @@", [a]); ("@@ -0x1003,1 +0x2003,1 @@", [b])]
    (mkSymbolsEntry []) =
  compare_function_stacks (fun collected => collected)
    [("@@ -0x1000,2 +0x2000,2 @@", [a; b])] (mkSymbolsEntry []).
Proof.
  intros a b. apply hunks_play_no_part. reflexivity.
Defined.

(** ** Two paired lines with different offsets *)

Section PairedLines.



End PairedLines.



(** ** A symbol behind a stack-pointer reference *)

(** C6, evaluated where the code departs from it.  The table has a symbol
    at the frame-base offset +16 and the only pair of the set is
    [esp + 0x10] with itself, so no correspondence refers to the slot of
    the symbol.  The by-recomp view takes the [esp] reference for offset
    16, prints its line and no line "not seen": the symbol appears nowhere
    in the report.  Without the [esp] pair the symbol is listed. *)
Theorem unseen_symbol_hidden_by_stack_pointer_reference :
  let sym := mkStackSymbol "count" "T_INT4" in
  let syms : gmap Z StackSymbol := {[ 16 := sym ]} in
  let esp_pair := mkStackPair (sro "esp" 16) (sro "esp" 16) in
  let w := mkWarnings false false in
  print_by_recomp_stack [esp_pair] syms w =
    Some ([HeaderRecomp;
           BijectiveMatch (Str (sro "esp" 16)) (Str (sro "esp" 16)) true], w) /\
  (forall x, ~ In (NotSeen x)
                  [HeaderRecomp;
                   BijectiveMatch (Str (sro "esp" 16)) (Str (sro "esp" 16)) true]) /\
  print_by_recomp_stack [] syms w =
    Some ([HeaderRecomp; NotSeen (mkStackRegisterOffset "ebp" 16 (Some sym))], w) /\
  compare_function_stacks (fun collected => collected)
    [("@@ -0x1000,1 +0x2000,1 @@",
      [MatchingBlock [("0x1000", "lea ecx, [esp + 0x10]", "0x2000")]])]
    (mkSymbolsEntry [mkStackOrRegisterSymbol "S_BPREL32" "[00000010]" "T_INT4" "count"]) =
    Some ([HeaderOriginal;
           BijectiveMatch (Str (sro "esp" 16)) (Str (sro "esp" 16)) true;
           HeaderRecomp;
           BijectiveMatch (Str (sro "esp" 16)) (Str (sro "esp" 16)) true;
           Legend], w).
Proof.
  intros sym syms esp_pair w.
  split; [vm_compute; reflexivity|]. split.
  - intros x [H|[H|[]]]; discriminate.
  - split; vm_compute; reflexivity.
Qed.
